(** * Deaf EQ simulator: the audio pipeline of [src/app/page.tsx]

    A shallow embedding of the page component's engine logic: the two
    gain curves and the chart series ([EQGraph]), the mount effect that
    loads the track and builds the chain of six peaking filters
    ([loadAudio]), the effect that retargets the filter gains when [eqOn]
    changes, and the play button's handler ([togglePlay]).

    The Web Audio objects the page holds in its refs are shared, mutable
    objects; they live in a heap keyed by object identity and the refs
    hold identities.  Handlers are commands of a state-and-exception
    monad over the page's world.  An [await] is modelled as an atomic
    continuation: what a handler does when it runs between two awaits of
    another one is covered by stating the guards for every world. *)

From Stdlib Require Import QArith.
From stdpp Require Import base option list gmap strings.

(** ** Values of the platform *)

(** A JavaScript [number]; every number of the page is a decimal literal. *)
Abbreviation number := Q (only parsing).

(** Identity of a heap object. *)
Abbreviation Ref := nat (only parsing).

(** What a handler hands back: [return;] and running off the end of a
    function both give [undefined]. *)
Inductive Value : Type :=
  | undefined
  | VBool (b : bool).

Inductive Exn : Type :=
  | TypeError
  | InvalidStateError
  | EncodingError
  | NetworkError.

(** The raw response body and the decoded track. *)
Abbreviation ArrayBuffer := (list Byte.byte) (only parsing).

Record AudioBuffer : Type := mkAudioBuffer {
  numberOfChannels : N;
  length_frames : N;
  sampleRate : N
}.

(** ** Web Audio interfaces *)

Module AudioParam.
(** A scheduled automation: [setTargetAtTime(target, startTime,
    timeConstant)] starts an exponential approach to [target]. *)
Inductive Event : Type :=
  | SetTargetAtTime (target startTime timeConstant : number).

(** [value] is the value last assigned to [.value]; [events] is the
    automation timeline, oldest first. *)
Record t : Type := mk { value : number; events : list Event }.

Definition set_value (v : number) (p : t) : t :=
  {| value := v; events := events p |}.

Definition setTargetAtTime (target startTime timeConstant : number) (p : t) : t :=
  {| value := value p;
     events := events p ++ [SetTargetAtTime target startTime timeConstant] |}.

(** Where the parameter is heading: the target of the newest
    automation, or the assigned value when nothing is scheduled. *)
Definition target_of (p : t) : number :=
  match last (events p) with
  | Some (SetTargetAtTime g _ _) => g
  | None => value p
  end.
End AudioParam.

(** The far end of a [connect]: another node, or [ctx.destination]. *)
Inductive Target : Type :=
  | ToNode (r : Ref)
  | ToDestination (ctx : Ref).

Inductive BiquadFilterType : Type :=
  | lowpass | highpass | bandpass | lowshelf | highshelf
  | peaking | notch | allpass.

Module BiquadFilterNode.
Record t : Type := mk {
  type : BiquadFilterType;
  frequency : AudioParam.t;
  Q : AudioParam.t;
  gain : AudioParam.t;
  outputs : list Target
}.

(** A node as [createBiquadFilter()] hands it out. *)
Definition fresh_node : t :=
  {| type := lowpass;
     frequency := AudioParam.mk 350%Q [];
     Q := AudioParam.mk 1%Q [];
     gain := AudioParam.mk 0%Q [];
     outputs := [] |}.

Definition set_type (ty : BiquadFilterType) (n : t) : t :=
  {| type := ty; frequency := frequency n; Q := Q n; gain := gain n;
     outputs := outputs n |}.
Definition upd_frequency (f : AudioParam.t -> AudioParam.t) (n : t) : t :=
  {| type := type n; frequency := f (frequency n); Q := Q n; gain := gain n;
     outputs := outputs n |}.
Definition upd_Q (f : AudioParam.t -> AudioParam.t) (n : t) : t :=
  {| type := type n; frequency := frequency n; Q := f (Q n); gain := gain n;
     outputs := outputs n |}.
Definition upd_gain (f : AudioParam.t -> AudioParam.t) (n : t) : t :=
  {| type := type n; frequency := frequency n; Q := Q n; gain := f (gain n);
     outputs := outputs n |}.
Definition add_output (d : Target) (n : t) : t :=
  {| type := type n; frequency := frequency n; Q := Q n; gain := gain n;
     outputs := outputs n ++ [d] |}.
End BiquadFilterNode.

Module AudioBufferSourceNode.
Record t : Type := mk {
  buffer : option AudioBuffer;
  loop : bool;
  outputs : list Target;
  started : bool;
  stopped : bool
}.

Definition fresh_node : t :=
  {| buffer := None; loop := false; outputs := []; started := false;
     stopped := false |}.

Definition set_buffer (b : AudioBuffer) (n : t) : t :=
  {| buffer := Some b; loop := loop n; outputs := outputs n;
     started := started n; stopped := stopped n |}.
Definition set_loop (b : bool) (n : t) : t :=
  {| buffer := buffer n; loop := b; outputs := outputs n;
     started := started n; stopped := stopped n |}.
Definition add_output (d : Target) (n : t) : t :=
  {| buffer := buffer n; loop := loop n; outputs := outputs n ++ [d];
     started := started n; stopped := stopped n |}.
Definition set_started (n : t) : t :=
  {| buffer := buffer n; loop := loop n; outputs := outputs n;
     started := true; stopped := stopped n |}.
Definition set_stopped (n : t) : t :=
  {| buffer := buffer n; loop := loop n; outputs := outputs n;
     started := started n; stopped := true |}.

(** The node is sounding: started and not yet stopped. *)
Definition active (n : t) : bool := started n && negb (stopped n).
End AudioBufferSourceNode.

Inductive AudioContextState : Type := suspended | running | closed.

Module AudioContext.
Record t : Type := mk { state : AudioContextState; currentTime : number }.

Definition set_state (s : AudioContextState) (c : t) : t :=
  {| state := s; currentTime := currentTime c |}.
End AudioContext.

Inductive Obj : Type :=
  | OContext (c : AudioContext.t)
  | OBiquad (n : BiquadFilterNode.t)
  | OSource (n : AudioBufferSourceNode.t).

(** ** The world of one mounted page *)

Record World : Type := mkWorld {
  (** [useState] *)
  eqOn : bool;
  isPlaying : bool;
  (** [useRef] *)
  audioContextRef : option Ref;
  sourceRef : option Ref;
  filtersRef : list Ref;
  bufferRef : option AudioBuffer;
  (** the [mounted] flag of the mount effect's closure *)
  mounted : bool;
  (** the platform: audio objects and the console *)
  heap : gmap nat Obj;
  console : list string
}.

(** A page before its first effect has run. *)
Definition initial : World :=
  {| eqOn := false; isPlaying := false;
     audioContextRef := None; sourceRef := None; filtersRef := [];
     bufferRef := None; mounted := true; heap := ∅; console := [] |}.

Definition set_eqOn (b : bool) (w : World) : World :=
  {| eqOn := b; isPlaying := isPlaying w;
     audioContextRef := audioContextRef w; sourceRef := sourceRef w;
     filtersRef := filtersRef w; bufferRef := bufferRef w;
     mounted := mounted w; heap := heap w; console := console w |}.
Definition set_isPlaying (b : bool) (w : World) : World :=
  {| eqOn := eqOn w; isPlaying := b;
     audioContextRef := audioContextRef w; sourceRef := sourceRef w;
     filtersRef := filtersRef w; bufferRef := bufferRef w;
     mounted := mounted w; heap := heap w; console := console w |}.
Definition set_audioContextRef (r : option Ref) (w : World) : World :=
  {| eqOn := eqOn w; isPlaying := isPlaying w;
     audioContextRef := r; sourceRef := sourceRef w;
     filtersRef := filtersRef w; bufferRef := bufferRef w;
     mounted := mounted w; heap := heap w; console := console w |}.
Definition set_sourceRef (r : option Ref) (w : World) : World :=
  {| eqOn := eqOn w; isPlaying := isPlaying w;
     audioContextRef := audioContextRef w; sourceRef := r;
     filtersRef := filtersRef w; bufferRef := bufferRef w;
     mounted := mounted w; heap := heap w; console := console w |}.
Definition set_filtersRef (l : list Ref) (w : World) : World :=
  {| eqOn := eqOn w; isPlaying := isPlaying w;
     audioContextRef := audioContextRef w; sourceRef := sourceRef w;
     filtersRef := l; bufferRef := bufferRef w;
     mounted := mounted w; heap := heap w; console := console w |}.
Definition set_bufferRef (b : option AudioBuffer) (w : World) : World :=
  {| eqOn := eqOn w; isPlaying := isPlaying w;
     audioContextRef := audioContextRef w; sourceRef := sourceRef w;
     filtersRef := filtersRef w; bufferRef := b;
     mounted := mounted w; heap := heap w; console := console w |}.
Definition set_mounted (b : bool) (w : World) : World :=
  {| eqOn := eqOn w; isPlaying := isPlaying w;
     audioContextRef := audioContextRef w; sourceRef := sourceRef w;
     filtersRef := filtersRef w; bufferRef := bufferRef w;
     mounted := b; heap := heap w; console := console w |}.
Definition set_heap (h : gmap nat Obj) (w : World) : World :=
  {| eqOn := eqOn w; isPlaying := isPlaying w;
     audioContextRef := audioContextRef w; sourceRef := sourceRef w;
     filtersRef := filtersRef w; bufferRef := bufferRef w;
     mounted := mounted w; heap := h; console := console w |}.
Definition add_console (s : string) (w : World) : World :=
  {| eqOn := eqOn w; isPlaying := isPlaying w;
     audioContextRef := audioContextRef w; sourceRef := sourceRef w;
     filtersRef := filtersRef w; bufferRef := bufferRef w;
     mounted := mounted w; heap := heap w; console := console w ++ [s] |}.

(** ** Commands: state and exceptions *)

Inductive Completion (A : Type) : Type :=
  | Normal (a : A)
  | Throw (e : Exn).
Arguments Normal {A} a.
Arguments Throw {A} e.

(** A command runs in a world and completes, normally or by throwing, in
    a world; what it did before a throw stays done. *)
Definition M (A : Type) : Type := World -> Completion A * World.

Definition ret {A} (a : A) : M A := fun w => (Normal a, w).
Definition throw {A} (e : Exn) : M A := fun w => (Throw e, w).
Definition bind {A B} (m : M A) (k : A -> M B) : M B :=
  fun w => match m w with
           | (Normal a, w') => k a w'
           | (Throw e, w') => (Throw e, w')
           end.
Definition try_catch {A} (body : M A) (handler : Exn -> M A) : M A :=
  fun w => match body w with
           | (Normal a, w') => (Normal a, w')
           | (Throw e, w') => handler e w'
           end.
Definition get {A} (f : World -> A) : M A := fun w => (Normal (f w), w).
Definition modify (f : World -> World) : M unit := fun w => (Normal tt, f w).

#[global] Instance M_ret : MRet M := @ret.
#[global] Instance M_bind : MBind M := fun A B k m => bind m k.

(** ** Array methods the page uses *)

(** [xs.map(f)] *)
Fixpoint array_map {A B} (f : A -> M B) (xs : list A) : M (list B) :=
  match xs with
  | [] => ret []
  | x :: xs' => y ← f x; ys ← array_map f xs'; ret (y :: ys)
  end.

Fixpoint array_fold {A} (f : A -> A -> M A) (acc : A) (xs : list A) : M A :=
  match xs with
  | [] => ret acc
  | x :: xs' => acc' ← f acc x; array_fold f acc' xs'
  end.

(** [xs.reduce(f)] without an initial value: the first element seeds the
    accumulator, and an empty array is a [TypeError]. *)
Definition array_reduce {A} (f : A -> A -> M A) (xs : list A) : M A :=
  match xs with
  | [] => throw TypeError
  | x :: xs' => array_fold f x xs'
  end.

(** [xs.forEach((x, i) => f(x, i))], counting from [i]. *)
Fixpoint array_forEach_from {A} (f : A -> nat -> M unit) (i : nat) (xs : list A)
  : M unit :=
  match xs with
  | [] => ret tt
  | x :: xs' => f x i;; array_forEach_from f (S i) xs'
  end.
Definition array_forEach {A} (f : A -> nat -> M unit) (xs : list A) : M unit :=
  array_forEach_from f 0 xs.

(** [xs[i]] where the result is used as an object or a finite number:
    [undefined] there is a [TypeError]. *)
Definition index {A} (xs : list A) (i : nat) : M A :=
  match xs !! i with
  | Some x => ret x
  | None => throw TypeError
  end.

(** ** The Web Audio calls the page makes *)

Definition alloc (o : Obj) : M Ref :=
  fun w => let r := fresh (dom (heap w)) in
           (Normal r, set_heap (<[r := o]> (heap w)) w).

Definition on_biquad (r : Ref) (f : BiquadFilterNode.t -> BiquadFilterNode.t)
  : M unit :=
  fun w => match heap w !! r with
           | Some (OBiquad n) => (Normal tt, set_heap (<[r := OBiquad (f n)]> (heap w)) w)
           | _ => (Throw TypeError, w)
           end.

(** [new AudioContext()]: the platform decides the state it starts in. *)
Definition new_AudioContext (start : AudioContextState) : M Ref :=
  alloc (OContext (AudioContext.mk start 0%Q)).

(** [ctx.currentTime] *)
Definition currentTime (ctx : Ref) : M number :=
  fun w => match heap w !! ctx with
           | Some (OContext c) => (Normal (AudioContext.currentTime c), w)
           | _ => (Throw TypeError, w)
           end.

(** [await ctx.resume()]: rejected on a closed context. *)
Definition resume (ctx : Ref) : M unit :=
  fun w => match heap w !! ctx with
           | Some (OContext c) =>
               match AudioContext.state c with
               | closed => (Throw InvalidStateError, w)
               | _ => (Normal tt,
                       set_heap (<[ctx := OContext (AudioContext.set_state running c)]> (heap w)) w)
               end
           | _ => (Throw TypeError, w)
           end.

(** [ctx.createBiquadFilter()] and the assignments to a filter *)
Definition createBiquadFilter (ctx : Ref) : M Ref :=
  alloc (OBiquad BiquadFilterNode.fresh_node).
Definition set_type (flt : Ref) (ty : BiquadFilterType) : M unit :=
  on_biquad flt (BiquadFilterNode.set_type ty).
Definition set_frequency_value (flt : Ref) (v : number) : M unit :=
  on_biquad flt (BiquadFilterNode.upd_frequency (AudioParam.set_value v)).
Definition set_Q_value (flt : Ref) (v : number) : M unit :=
  on_biquad flt (BiquadFilterNode.upd_Q (AudioParam.set_value v)).
Definition set_gain_value (flt : Ref) (v : number) : M unit :=
  on_biquad flt (BiquadFilterNode.upd_gain (AudioParam.set_value v)).

(** [filter.gain.setTargetAtTime(target, startTime, timeConstant)] *)
Definition gain_setTargetAtTime (flt : Ref) (target startTime timeConstant : number)
  : M unit :=
  on_biquad flt
    (BiquadFilterNode.upd_gain (AudioParam.setTargetAtTime target startTime timeConstant)).

(** [node.connect(dest)] *)
Definition connect (node : Ref) (dest : Target) : M unit :=
  fun w => match heap w !! node with
           | Some (OBiquad n) =>
               (Normal tt, set_heap (<[node := OBiquad (BiquadFilterNode.add_output dest n)]> (heap w)) w)
           | Some (OSource n) =>
               (Normal tt, set_heap (<[node := OSource (AudioBufferSourceNode.add_output dest n)]> (heap w)) w)
           | _ => (Throw TypeError, w)
           end.

(** [ctx.createBufferSource()] and what the page does with a source;
    [start] twice and [stop] before [start] are [InvalidStateError]s. *)
Definition on_source (r : Ref)
    (f : AudioBufferSourceNode.t -> Completion AudioBufferSourceNode.t) : M unit :=
  fun w => match heap w !! r with
           | Some (OSource n) =>
               match f n with
               | Normal n' => (Normal tt, set_heap (<[r := OSource n']> (heap w)) w)
               | Throw e => (Throw e, w)
               end
           | _ => (Throw TypeError, w)
           end.
Definition createBufferSource (ctx : Ref) : M Ref :=
  alloc (OSource AudioBufferSourceNode.fresh_node).
Definition set_buffer (src : Ref) (b : AudioBuffer) : M unit :=
  on_source src (fun n => Normal (AudioBufferSourceNode.set_buffer b n)).
Definition set_loop (src : Ref) (b : bool) : M unit :=
  on_source src (fun n => Normal (AudioBufferSourceNode.set_loop b n)).
Definition start (src : Ref) : M unit :=
  on_source src (fun n =>
    if AudioBufferSourceNode.started n then Throw InvalidStateError
    else Normal (AudioBufferSourceNode.set_started n)).
Definition stop (src : Ref) : M unit :=
  on_source src (fun n =>
    if AudioBufferSourceNode.started n then Normal (AudioBufferSourceNode.set_stopped n)
    else Throw InvalidStateError).

(** [console.error(msg, e)] *)
Definition console_error (msg : string) : M unit := modify (add_console msg).

(** ** What the platform decides *)

Record Platform : Type := mkPlatform {
  (** the body of [/OFF_deaf_eq.mp3], or [None] when [fetch] or
      [arrayBuffer] rejects *)
  response_body : option ArrayBuffer;
  (** [window.AudioContext] and ['webkitAudioContext' in window] *)
  has_AudioContext : bool;
  has_webkitAudioContext : bool;
  (** the state a context is created in (autoplay policy) *)
  created_state : AudioContextState;
  (** the decoder behind [decodeAudioData]; [None] is a rejection *)
  decoder : ArrayBuffer -> option AudioBuffer
}.

(** [await (await fetch(..)).arrayBuffer()] *)
Definition fetch_arrayBuffer (env : Platform) : M ArrayBuffer :=
  match response_body env with
  | Some bytes => ret bytes
  | None => throw NetworkError
  end.

(** [new (window.AudioContext || (.. ? window.webkitAudioContext : undefined))()];
    calling [undefined] as a constructor is a [TypeError]. *)
Definition construct_AudioContext (env : Platform) : M Ref :=
  if has_AudioContext env || (if has_webkitAudioContext env then true else false)
  then new_AudioContext (created_state env)
  else throw TypeError.

(** [await ctx.decodeAudioData(arrayBuffer)] *)
Definition decodeAudioData (env : Platform) (ctx : Ref) (bytes : ArrayBuffer)
  : M AudioBuffer :=
  match decoder env bytes with
  | Some buffer => ret buffer
  | None => throw EncodingError
  end.

(** ** [EQGraph] *)

Record ChartData : Type := mkChartData {
  labels : list string;
  data : list number
}.

Definition flatData : list number := [0; 0; 0; 0; 0; 0]%Q.
Definition bassHeavyData : list number := [12; 10; 4; -6; -8; -12]%Q.

Definition EQGraph (isBassHeavy : bool) : ChartData :=
  {| labels := ["60Hz"; "150Hz"; "250Hz"; "1kHz"; "4kHz"; "15kHz"]%string;
     data := if isBassHeavy then bassHeavyData else flatData |}.

(** ** [Page] *)

(** [const freqs] of [loadAudio] *)
Definition freqs : list number := [60; 150; 250; 1000; 4000; 15000]%Q.

(** [const gains] of the effect on [eqOn] *)
Definition gains (eqOn : bool) : list number :=
  if eqOn then [12; 10; 4; -6; -8; -12]%Q else [0; 0; 0; 0; 0; 0]%Q.

(** The fade's time constant, the literal of the effect on [eqOn]. *)
Definition timeConstant : number := 0.12%Q.

(** The callback of [freqs.map] *)
Definition make_filter (ctx : Ref) (f : number) : M Ref :=
  flt ← createBiquadFilter ctx;
  set_type flt peaking;;
  set_frequency_value flt f;;
  set_Q_value flt 1%Q;;
  set_gain_value flt 0%Q;;
  ret flt.

Definition loadAudio (env : Platform) : M Value :=
  try_catch
    (arrayBuffer ← fetch_arrayBuffer env;
     ctx ← construct_AudioContext env;
     still_mounted ← get mounted;
     if negb still_mounted then ret undefined else
     (modify (set_audioContextRef (Some ctx));;
      buffer ← decodeAudioData env ctx arrayBuffer;
      still_mounted ← get mounted;
      if negb still_mounted then ret undefined else
      (modify (set_bufferRef (Some buffer));;
       filters ← array_map (make_filter ctx) freqs;
       array_reduce (fun prev curr => connect prev (ToNode curr);; ret curr) filters;;
       last_filter ← index filters (length filters - 1);
       connect last_filter (ToDestination ctx);;
       modify (set_filtersRef filters);;
       ret undefined)))
    (fun e => console_error "Error loading audio:";; ret undefined).

(** The mount effect: [let mounted = true; .. loadAudio();].  Its
    cleanup is [Page_unmount]. *)
Definition Page_mount (env : Platform) : M Value :=
  modify (set_mounted true);;
  loadAudio env.

(** The callback of [filtersRef.current.forEach] in the effect on [eqOn] *)
Definition retarget (gains : list number) (now : number) (filter : Ref) (i : nat)
  : M unit :=
  g ← index gains i;
  gain_setTargetAtTime filter g now timeConstant.

(** The effect on [eqOn]; its argument is the [eqOn] of the render that
    scheduled it.  Its run at mount comes before the load has set any
    ref and returns at the guard. *)
Definition eq_effect (eqOn : bool) : M Value :=
  ctx ← get audioContextRef;
  filters ← get filtersRef;
  match ctx with
  | None => ret undefined
  | Some ctx =>
      if (length filters =? 0)%nat then ret undefined else
      (now ← currentTime ctx;
       array_forEach (retarget (gains eqOn) now) filters;;
       ret undefined)
  end.

(** [setIsPlaying] *)
Definition setIsPlaying (b : bool) : M unit := modify (set_isPlaying b).

(** [togglePlay]; its argument is the [isPlaying] of the render whose
    closure the handler is. *)
Definition togglePlay (isPlaying : bool) : M Value :=
  ctx ← get audioContextRef;
  buffer ← get bufferRef;
  filters ← get filtersRef;
  match ctx, buffer with
  | Some ctx, Some buffer =>
      if (length filters =? 0)%nat then ret undefined else
      if isPlaying then
        (try_catch
           (source ← get sourceRef;
            match source with Some s => stop s | None => ret tt end)
           (fun _ => ret tt);;
         modify (set_sourceRef None);;
         setIsPlaying false;;
         ret undefined)
      else
        (resume ctx;;
         source ← createBufferSource ctx;
         set_buffer source buffer;;
         set_loop source true;;
         first_filter ← index filters 0;
         connect source (ToNode first_filter);;
         start source;;
         modify (set_sourceRef (Some source));;
         setIsPlaying true;;
         ret undefined)
  | _, _ => ret undefined
  end.

(** [setEqOn(f)] followed by the commit it causes: the render with the
    new value and, because [eqOn] is the effect's only dependency, the
    effect exactly when the value differs from the previous one. *)
Definition setEqOn (f : bool -> bool) : M Value :=
  before ← get eqOn;
  let v := f before in
  if Bool.eqb v before then ret undefined else
  (modify (set_eqOn v);;
   eq_effect v).

(** The two controls of the rendered page. *)
Definition play_button_onClick : M Value :=
  shown ← get isPlaying;
  togglePlay shown.
Definition eq_toggle_onClick : M Value := setEqOn negb.

(** Driving the curve to a given position. *)
Definition setCurveEnabled (enabled : bool) : M Value := setEqOn (fun _ => enabled).

(** The series the rendered page plots: [<EQGraph isBassHeavy={eqOn} />]. *)
Definition Page_graph (w : World) : ChartData := EQGraph (eqOn w).

(** Time passing on the audio clock of a running context. *)
Definition tick (dt : number) (o : Obj) : Obj :=
  match o with
  | OContext c =>
      match AudioContext.state c with
      | running => OContext (AudioContext.mk running (AudioContext.currentTime c + dt)%Q)
      | _ => o
      end
  | _ => o
  end.

Definition elapse (dt : number) : M unit :=
  modify (fun w => set_heap (tick dt <$> heap w) w).

(** What can happen to a mounted page, and a run of such events.  A click
    on the play button carries the [isPlaying] its handler was rendered
    with, which is the current one unless the click overtakes the
    re-render. *)
Inductive Event : Type :=
  | PlayClick (shown_isPlaying : bool)
  | EqToggle
  | Elapse (dt : number).

Definition handle (e : Event) : M Value :=
  match e with
  | PlayClick shown => togglePlay shown
  | EqToggle => eq_toggle_onClick
  | Elapse dt => elapse dt;; ret undefined
  end.

Definition run (es : list Event) (w : World) : World :=
  foldl (fun w e => (handle e w).2) w es.

(** ** Reading the chain off a world *)

Definition as_biquad (o : Obj) : option BiquadFilterNode.t :=
  match o with OBiquad n => Some n | _ => None end.
Definition as_source (o : Obj) : option AudioBufferSourceNode.t :=
  match o with OSource n => Some n | _ => None end.
Definition as_context (o : Obj) : option AudioContext.t :=
  match o with OContext c => Some c | _ => None end.

(** The filter nodes that exist, by identity. *)
Definition biquads (w : World) : gmap nat BiquadFilterNode.t :=
  omap as_biquad (heap w).

(** The [i]-th filter of the chain. *)
Definition filter_at (w : World) (i : nat) : option BiquadFilterNode.t :=
  r ← filtersRef w !! i; biquads w !! r.

Definition source_at (w : World) (r : Ref) : option AudioBufferSourceNode.t :=
  heap w !! r ≫= as_source.

Definition context_at (w : World) (r : Ref) : option AudioContext.t :=
  heap w !! r ≫= as_context.

(** The gain each filter of the chain is heading for, in chain order. *)
Definition target_gains (w : World) : list (option number) :=
  (fun r => (fun n => AudioParam.target_of (BiquadFilterNode.gain n)) <$> biquads w !! r)
    <$> filtersRef w.

(** The gain last assigned to each filter of the chain. *)
Definition gain_values (w : World) : list (option number) :=
  (fun r => (fun n => AudioParam.value (BiquadFilterNode.gain n)) <$> biquads w !! r)
    <$> filtersRef w.

(** A platform on which the load goes through. *)
Definition track : AudioBuffer :=
  {| numberOfChannels := 1%N; length_frames := 88200%N; sampleRate := 44100%N |}.
Definition good_platform : Platform :=
  {| response_body := Some [Byte.x49; Byte.x44; Byte.x33];
     has_AudioContext := true; has_webkitAudioContext := false;
     created_state := suspended;
     decoder := fun _ => Some track |}.

(** A platform whose decoder rejects the bytes. *)
Definition bad_platform : Platform :=
  {| response_body := Some [Byte.x00];
     has_AudioContext := true; has_webkitAudioContext := false;
     created_state := suspended;
     decoder := fun _ => None |}.

(** ** The vocabulary of the properties *)

(** Reducing projections of updated worlds, and unfolding commands. *)
Ltac simpl_world :=
  cbn [fst snd eqOn isPlaying audioContextRef sourceRef filtersRef bufferRef
       mounted heap console set_eqOn set_isPlaying set_audioContextRef
       set_sourceRef set_filtersRef set_bufferRef set_mounted set_heap
       add_console] in *.

Ltac unfold_cmd :=
  unfold mbind, M_bind, bind, ret, get, modify, throw, try_catch, setIsPlaying in *.

(** What [sourceRef.current?.stop()] inside [try .. catch {}] leaves of
    the heap. *)
Definition heap_after_stop (w : World) : gmap nat Obj :=
  match sourceRef w with
  | Some s =>
      match heap w !! s with
      | Some (OSource n) =>
          if AudioBufferSourceNode.started n
          then <[s := OSource (AudioBufferSourceNode.set_stopped n)]> (heap w)
          else heap w
      | _ => heap w
      end
  | None => heap w
  end.

(** The session [togglePlay] builds. *)
Definition session (buf : AudioBuffer) (first_filter : Ref) : AudioBufferSourceNode.t :=
  {| AudioBufferSourceNode.buffer := Some buf;
     AudioBufferSourceNode.loop := true;
     AudioBufferSourceNode.outputs := [ToNode first_filter];
     AudioBufferSourceNode.started := true;
     AudioBufferSourceNode.stopped := false |}.

(** What the transport leaves alone. *)
Record engine_frame (w w' : World) : Prop := mk_engine_frame {
  frame_eqOn : eqOn w' = eqOn w;
  frame_audioContextRef : audioContextRef w' = audioContextRef w;
  frame_bufferRef : bufferRef w' = bufferRef w;
  frame_filtersRef : filtersRef w' = filtersRef w;
  frame_biquads : biquads w' = biquads w;
  frame_contexts : ∀ r, is_Some (context_at w r) → is_Some (context_at w' r)
}.

(** The page holds a session exactly when it says it is playing. *)
Definition session_held (w : World) : Prop :=
  is_Some (sourceRef w) ↔ isPlaying w = true.

(** What one retargeting does to a filter: the assigned value stays, one
    automation is appended. *)
Definition retargeted (g now : number) (n : BiquadFilterNode.t) : BiquadFilterNode.t :=
  BiquadFilterNode.upd_gain (AudioParam.setTargetAtTime g now timeConstant) n.

(** The chain as [loadAudio] leaves it: a context, a buffer, and six
    distinct peaking filters with Q 1 at the frequencies of [freqs]. *)
Record chain_built (w : World) : Prop := mk_chain_built {
  built_context : ∃ ctx, audioContextRef w = Some ctx ∧ is_Some (context_at w ctx);
  built_buffer : is_Some (bufferRef w);
  built_NoDup : NoDup (filtersRef w);
  built_filters :
    Forall2 (fun r f => ∃ n, biquads w !! r = Some n ∧
                             BiquadFilterNode.type n = peaking ∧
                             AudioParam.value (BiquadFilterNode.frequency n) = f ∧
                             AudioParam.value (BiquadFilterNode.Q n) = 1%Q)
            (filtersRef w) freqs
}.

(** The page a successful load leaves, given the state the context was
    created in and the decoded track. *)
Definition loaded (st : AudioContextState) (buf : AudioBuffer) : World :=
  (Page_mount
     {| response_body := Some []; has_AudioContext := true;
        has_webkitAudioContext := false; created_state := st;
        decoder := fun _ => Some buf |}
     initial).2.

(** The page a rejected decode leaves. *)
Definition load_failed (st : AudioContextState) : World :=
  (Page_mount
     {| response_body := Some []; has_AudioContext := true;
        has_webkitAudioContext := false; created_state := st;
        decoder := fun _ => None |}
     initial).2.

(** Running the load on the initial page up to the decoder. *)
Ltac run_mount :=
  unfold Page_mount, loadAudio, fetch_arrayBuffer, construct_AudioContext,
    decodeAudioData, new_AudioContext, alloc;
  cbv [mbind M_bind bind ret throw try_catch modify get negb orb
       response_body has_AudioContext has_webkitAudioContext created_state decoder
       initial set_mounted set_audioContextRef set_heap
       eqOn isPlaying audioContextRef sourceRef filtersRef bufferRef mounted heap
       console].

(** A filter of the chain as the load leaves it. *)
Definition built_filter (f : number) (out : Target) : BiquadFilterNode.t :=
  {| BiquadFilterNode.type := peaking;
     BiquadFilterNode.frequency := AudioParam.mk f [];
     BiquadFilterNode.Q := AudioParam.mk 1%Q [];
     BiquadFilterNode.gain := AudioParam.mk 0%Q [];
     BiquadFilterNode.outputs := [out] |}.

(** The page after a load that went through. *)
Definition ready : World := loaded suspended track.

(** A command that writes nothing but the heap. *)
Definition heap_only {A} (m : M A) : Prop :=
  ∀ w, ∃ h, (m w).2 = set_heap h w.

(** An event that is not a move of the curve switch. *)
Definition no_toggle (e : Event) : bool :=
  match e with EqToggle => false | _ => true end.

(** The page while the track plays: the loaded page after one click. *)
Definition playing : World := (play_button_onClick ready).2.

(** ** The cleanup, and the load seen from the event loop *)

(** [ctx.close()] as the cleanup calls it.  The promise it returns is
    dropped, so the rejection that closing a closed context gives shows
    nowhere. *)
Definition close (ctx : Ref) : M unit :=
  fun w => match heap w !! ctx with
           | Some (OContext c) =>
               match AudioContext.state c with
               | closed => (Normal tt, w)
               | _ => (Normal tt,
                       set_heap (<[ctx := OContext (AudioContext.set_state closed c)]> (heap w)) w)
               end
           | _ => (Throw TypeError, w)
           end.

(** The cleanup the mount effect returns. *)
Definition Page_unmount : M Value :=
  modify (set_mounted false);;
  try_catch
    (source ← get sourceRef;
     match source with Some s => stop s | None => ret tt end)
    (fun _ => ret tt);;
  ctx ← get audioContextRef;
  match ctx with Some c => close c | None => ret tt end;;
  ret undefined.

(** [loadAudio] together with what the event loop runs while
    [decodeAudioData] is pending.  Those are runs of other handlers, so
    only what they leave of the world reaches the load. *)
Definition loadAudio_during (env : Platform) (meanwhile : World -> World) : M Value :=
  try_catch
    (arrayBuffer ← fetch_arrayBuffer env;
     ctx ← construct_AudioContext env;
     still_mounted ← get mounted;
     if negb still_mounted then ret undefined else
     (modify (set_audioContextRef (Some ctx));;
      modify meanwhile;;
      buffer ← decodeAudioData env ctx arrayBuffer;
      still_mounted ← get mounted;
      if negb still_mounted then ret undefined else
      (modify (set_bufferRef (Some buffer));;
       filters ← array_map (make_filter ctx) freqs;
       array_reduce (fun prev curr => connect prev (ToNode curr);; ret curr) filters;;
       last_filter ← index filters (length filters - 1);
       connect last_filter (ToDestination ctx);;
       modify (set_filtersRef filters);;
       ret undefined)))
    (fun e => console_error "Error loading audio:";; ret undefined).

Definition Page_mount_during (env : Platform) (meanwhile : World -> World) : M Value :=
  modify (set_mounted true);;
  loadAudio_during env meanwhile.




(** The objects of the heap that are not filters. *)
Definition non_biquad (o : Obj) : option Obj :=
  match o with OBiquad _ => None | _ => Some o end.
Definition others (h : gmap nat Obj) : gmap nat Obj := omap non_biquad h.

(** A command that writes nothing but filter nodes. *)
Definition biquad_only {A} (m : M A) : Prop :=
  ∀ w, ∃ h, (m w).2 = set_heap h w ∧ others h = others (heap w).

(** The context ref, when set, holds a context. *)
Definition ctx_typed (w : World) : Prop :=
  ∀ c, audioContextRef w = Some c → is_Some (context_at w c).


(** What the cleanup leaves of the heap: the held source stopped, the
    held context closed. *)
Definition heap_after_close (ctx : option Ref) (h : gmap nat Obj) : gmap nat Obj :=
  match ctx with
  | Some c =>
      match h !! c with
      | Some (OContext x) =>
          match AudioContext.state x with
          | closed => h
          | _ => <[c := OContext (AudioContext.set_state closed x)]> h
          end
      | _ => h
      end
  | None => h
  end.

(** Running a load with its interleaving on the initial page up to the
    decoder. *)
Ltac run_mount_during :=
  unfold Page_mount_during, loadAudio_during, fetch_arrayBuffer,
    construct_AudioContext, decodeAudioData, new_AudioContext, alloc;
  cbv [mbind M_bind bind ret throw try_catch modify get negb orb
       response_body has_AudioContext has_webkitAudioContext created_state decoder
       initial set_mounted set_audioContextRef set_heap
       eqOn isPlaying audioContextRef sourceRef filtersRef bufferRef mounted heap
       console].

(** ** The chart's scale, and the signal path *)

(** The part of [EQGraph]'s [options] that fixes what the chart can
    show: the y axis runs from [min] to [max] dB. *)
Record ChartOptions : Type := mkChartOptions {
  responsive : bool;
  legend_display : bool;
  y_min : number;
  y_max : number
}.

Definition EQGraph_options : ChartOptions :=
  {| responsive := true; legend_display := false;
     y_min := (-12)%Q; y_max := 12%Q |}.

(** An automation the effect on [eqOn] can have scheduled on the filter
    at index [i]: an approach with the effect's time constant to the gain
    one of the two curves has at [i]. *)
Definition ramp_at (i : nat) (ev : AudioParam.Event) : Prop :=
  ∃ on g t, ev = AudioParam.SetTargetAtTime g t timeConstant ∧ gains on !! i = Some g.

(** The filter at index [i] is as the load built it, but for the ramps
    scheduled on its gain. *)
Definition kept_filter (w : World) (i : nat) (f : number) (n : BiquadFilterNode.t) : Prop :=
  BiquadFilterNode.type n = peaking ∧
  BiquadFilterNode.frequency n = AudioParam.mk f [] ∧
  BiquadFilterNode.Q n = AudioParam.mk 1%Q [] ∧
  AudioParam.value (BiquadFilterNode.gain n) = 0%Q ∧
  Forall (ramp_at i) (AudioParam.events (BiquadFilterNode.gain n)) ∧
  ∃ ctx, audioContextRef w = Some ctx ∧
         BiquadFilterNode.outputs n =
           [match filtersRef w !! S i with
            | Some next => ToNode next
            | None => ToDestination ctx
            end].

Definition kept_chain (w : World) : Prop :=
  ∀ i f, freqs !! i = Some f →
    ∃ r n, filtersRef w !! i = Some r ∧ biquads w !! r = Some n ∧ kept_filter w i f n.

(** Every source node feeds the first filter of the chain and nothing
    else. *)
Definition sources_wired (w : World) : Prop :=
  ∀ r n, source_at w r = Some n →
    ∃ f0, filtersRef w !! 0 = Some f0 ∧
          AudioBufferSourceNode.outputs n = [ToNode f0].

(** Following the connections from a target through filters that have
    exactly one output: the filters passed, in order, and the context
    whose destination is reached, if one is. *)
Fixpoint route (fuel : nat) (w : World) (t : Target) : list Ref * option Ref :=
  match t with
  | ToDestination c => ([], Some c)
  | ToNode r =>
      match fuel with
      | 0 => ([], None)
      | S fuel' =>
          match biquads w !! r with
          | Some n =>
              match BiquadFilterNode.outputs n with
              | [t'] => let (passed, sink) := route fuel' w t' in (r :: passed, sink)
              | _ => ([r], None)
              end
          | None => ([], None)
          end
      end
  end.

(** * Properties *)

(** ** The play button *)

(** The guard of [togglePlay]: without a context, a buffer or a chain the
    handler returns at once and the world is as it was. *)
Lemma togglePlay_guard (shown : bool) (w : World) :
  audioContextRef w = None ∨ bufferRef w = None ∨ filtersRef w = [] →
  togglePlay shown w = (Normal undefined, w).
Proof.
  intros H. unfold togglePlay. unfold_cmd.
  destruct (audioContextRef w) as [ctx|]; [|done].
  destruct (bufferRef w) as [buf|]; [|done].
  destruct (filtersRef w) as [|f fs]; [done|].
  destruct H as [H|[H|H]]; discriminate H.
Qed.

Lemma togglePlay_stop (w : World) (ctx : Ref) (buf : AudioBuffer) (f0 : Ref) (fs : list Ref) :
  audioContextRef w = Some ctx → bufferRef w = Some buf → filtersRef w = f0 :: fs →
  togglePlay true w =
    (Normal undefined,
     set_isPlaying false (set_sourceRef None (set_heap (heap_after_stop w) w))).
Proof.
  intros Hc Hb Hf. unfold togglePlay, heap_after_stop. unfold_cmd.
  rewrite Hc, Hb, Hf. simpl.
  destruct (sourceRef w) as [s|] eqn:Hs; simpl.
  - unfold stop, on_source.
    destruct (heap w !! s) as [[c|n|n]|] eqn:Hh; simpl; try (by destruct w).
    destruct (AudioBufferSourceNode.started n); simpl; by destruct w.
  - by destruct w.
Qed.

Lemma bind_normal {A B} (m : M A) (k : A → M B) (w : World) (a : A) (w' : World) :
  m w = (Normal a, w') → (m ≫= k) w = k a w'.
Proof. intros H. unfold mbind, M_bind, bind. by rewrite H. Qed.

Lemma bind_throw {A B} (m : M A) (k : A → M B) (w : World) (e : Exn) (w' : World) :
  m w = (Throw e, w') → (m ≫= k) w = (Throw e, w').
Proof. intros H. unfold mbind, M_bind, bind. by rewrite H. Qed.

Lemma on_source_run (r : Ref)
    (f : AudioBufferSourceNode.t → Completion AudioBufferSourceNode.t)
    (h : gmap nat Obj) (w : World) (n n' : AudioBufferSourceNode.t) :
  f n = Normal n' →
  on_source r f (set_heap (<[r := OSource n]> h) w) =
    (Normal tt, set_heap (<[r := OSource n']> h) w).
Proof.
  intros Hf. unfold on_source. simpl_world.
  rewrite lookup_insert_eq, Hf. simpl_world. by rewrite insert_insert_eq.
Qed.

Lemma connect_source_run (r : Ref) (d : Target) (h : gmap nat Obj) (w : World)
    (n : AudioBufferSourceNode.t) :
  connect r d (set_heap (<[r := OSource n]> h) w) =
    (Normal tt, set_heap (<[r := OSource (AudioBufferSourceNode.add_output d n)]> h) w).
Proof.
  unfold connect. simpl_world.
  rewrite lookup_insert_eq. simpl_world. by rewrite insert_insert_eq.
Qed.

Lemma togglePlay_start (w : World) (ctx : Ref) (buf : AudioBuffer) (f0 : Ref) (fs : list Ref) :
  audioContextRef w = Some ctx → bufferRef w = Some buf → filtersRef w = f0 :: fs →
  togglePlay false w =
    match resume ctx w with
    | (Normal _, w1) =>
        let s := fresh (dom (heap w1)) in
        (Normal undefined,
         set_isPlaying true (set_sourceRef (Some s)
           (set_heap (<[s := OSource (session buf f0)]> (heap w1)) w1)))
    | (Throw e, w1) => (Throw e, w1)
    end.
Proof.
  intros Hc Hb Hf. unfold togglePlay.
  rewrite (bind_normal _ _ w (Some ctx) w) by (unfold get; by rewrite Hc).
  rewrite (bind_normal _ _ w (Some buf) w) by (unfold get; by rewrite Hb).
  rewrite (bind_normal _ _ w (f0 :: fs) w) by (unfold get; by rewrite Hf).
  cbn [length Nat.eqb].
  destruct (resume ctx w) as [[[]|e] w1] eqn:Hres;
    [|by rewrite (bind_throw _ _ w e w1)].
  rewrite (bind_normal _ _ w tt w1) by done.
  cbn zeta. set (s := fresh (dom (heap w1))).
  rewrite (bind_normal _ _ w1 s
             (set_heap (<[s := OSource AudioBufferSourceNode.fresh_node]> (heap w1)) w1))
    by done.
  erewrite bind_normal; [|by apply on_source_run].
  erewrite bind_normal; [|by apply on_source_run].
  erewrite bind_normal; [|done].
  erewrite bind_normal; [|by apply connect_source_run].
  erewrite bind_normal; [|by apply on_source_run].
  done.
Qed.

(** [resume] either turns a live context to [running] or throws and
    leaves the world alone. *)
Lemma resume_cases (ctx : Ref) (w : World) :
  (∃ c, heap w !! ctx = Some (OContext c) ∧ AudioContext.state c ≠ closed ∧
        resume ctx w =
          (Normal tt,
           set_heap (<[ctx := OContext (AudioContext.set_state running c)]> (heap w)) w))
  ∨ (∃ e, resume ctx w = (Throw e, w)).
Proof.
  unfold resume.
  destruct (heap w !! ctx) as [[c|n|n]|] eqn:Hh; try (right; by eexists).
  destruct (AudioContext.state c) eqn:Hs; try (right; by eexists);
    left; exists c; rewrite Hs; by repeat split.
Qed.

(** Writing something that is not a filter where no filter was leaves
    the filters as they were. *)
Lemma biquads_insert_other (h : gmap nat Obj) (r : Ref) (o : Obj) :
  as_biquad o = None → h !! r ≫= as_biquad = None →
  omap as_biquad (<[r := o]> h) = omap as_biquad h.
Proof.
  intros Ho Hr. apply map_eq. intros i. rewrite !lookup_omap.
  destruct (decide (r = i)) as [->|Hne].
  - by rewrite lookup_insert_eq, Hr.
  - by rewrite lookup_insert_ne.
Qed.

Lemma fresh_not_in_heap (h : gmap nat Obj) : h !! fresh (dom h) = None.
Proof. apply not_elem_of_dom, is_fresh. Qed.

Lemma fresh_ne_present (h : gmap nat Obj) (r : Ref) :
  is_Some (h !! r) → r ≠ fresh (dom h).
Proof. intros Hr ->. rewrite fresh_not_in_heap in Hr. by destruct Hr. Qed.

Lemma engine_frame_refl (w : World) : engine_frame w w.
Proof. by split. Qed.

Lemma heap_after_stop_biquads (w : World) :
  omap as_biquad (heap_after_stop w) = biquads w.
Proof.
  unfold heap_after_stop, biquads.
  destruct (sourceRef w) as [s|]; [|done].
  destruct (heap w !! s) as [[c|n|n]|] eqn:Hh; try done.
  destruct (AudioBufferSourceNode.started n); [|done].
  apply biquads_insert_other; [done|]. by rewrite Hh.
Qed.

Lemma heap_after_stop_contexts (w : World) (r : Ref) (c : AudioContext.t) :
  heap w !! r = Some (OContext c) → heap_after_stop w !! r = Some (OContext c).
Proof.
  intros Hr. unfold heap_after_stop.
  destruct (sourceRef w) as [s|]; [|done].
  destruct (heap w !! s) as [[c'|n|n]|] eqn:Hh; try done.
  destruct (AudioBufferSourceNode.started n); [|done].
  rewrite lookup_insert_ne; [done|]. intros ->. congruence.
Qed.

Lemma context_at_Some (w : World) (r : Ref) :
  is_Some (context_at w r) ↔ ∃ c, heap w !! r = Some (OContext c).
Proof.
  unfold context_at. split.
  - intros [c Hc]. destruct (heap w !! r) as [[c'|n|n]|]; try discriminate Hc.
    by exists c'.
  - intros [c ->]. by exists c.
Qed.

(** [togglePlay], whatever it was rendered with and whatever the world,
    touches neither [eqOn] nor the chain. *)
Lemma togglePlay_frame (shown : bool) (w : World) :
  engine_frame w (togglePlay shown w).2.
Proof.
  destruct (audioContextRef w) as [ctx|] eqn:Hc;
    [|rewrite togglePlay_guard by auto; apply engine_frame_refl].
  destruct (bufferRef w) as [buf|] eqn:Hb;
    [|rewrite togglePlay_guard by auto; apply engine_frame_refl].
  destruct (filtersRef w) as [|f0 fs] eqn:Hf;
    [rewrite togglePlay_guard by auto; apply engine_frame_refl|].
  destruct shown.
  - rewrite (togglePlay_stop w ctx buf f0 fs) by done. simpl.
    split; simpl; try done.
    + apply heap_after_stop_biquads.
    + intros r [c Hr]%context_at_Some. apply context_at_Some. exists c.
      by apply heap_after_stop_contexts.
  - rewrite (togglePlay_start w ctx buf f0 fs) by done.
    destruct (resume_cases ctx w) as [(c & Hh & Hst & ->)|[e ->]];
      [|apply engine_frame_refl].
    simpl_world.
    set (h1 := <[ctx:=OContext (AudioContext.set_state running c)]> (heap w)).
    split; simpl_world; try done.
    + unfold biquads; simpl_world.
      rewrite biquads_insert_other; [|done|by rewrite fresh_not_in_heap].
      apply biquads_insert_other; [done|]. by rewrite Hh.
    + intros r [c' Hr]%context_at_Some. apply context_at_Some. simpl_world.
      assert (∃ c0, h1 !! r = Some (OContext c0)) as [c0 Hc0].
      { subst h1. destruct (decide (ctx = r)) as [->|Hne].
        - rewrite lookup_insert_eq. by eexists.
        - rewrite lookup_insert_ne by done. by exists c'. }
      exists c0. rewrite lookup_insert_ne; [done|].
      apply not_eq_sym, fresh_ne_present. by rewrite Hc0.
Qed.

(** ** The session reference *)

Lemma togglePlay_session_held (shown : bool) (w : World) :
  session_held w → session_held (togglePlay shown w).2.
Proof.
  intros Hw.
  destruct (audioContextRef w) as [ctx|] eqn:Hc;
    [|by rewrite togglePlay_guard by auto].
  destruct (bufferRef w) as [buf|] eqn:Hb;
    [|by rewrite togglePlay_guard by auto].
  destruct (filtersRef w) as [|f0 fs] eqn:Hf;
    [by rewrite togglePlay_guard by auto|].
  destruct shown.
  - rewrite (togglePlay_stop w ctx buf f0 fs) by done. unfold session_held; simpl.
    split; [by intros [? ?]|done].
  - rewrite (togglePlay_start w ctx buf f0 fs) by done.
    destruct (resume_cases ctx w) as [(c & Hh & Hst & ->)|[e ->]]; [|done].
    unfold session_held; simpl. split; [done|by eexists].
Qed.

(** ** Retargeting the gains *)

Lemma biquads_lookup (w : World) (r : Ref) (n : BiquadFilterNode.t) :
  biquads w !! r = Some n ↔ heap w !! r = Some (OBiquad n).
Proof.
  unfold biquads. rewrite lookup_omap.
  destruct (heap w !! r) as [[c|m|m]|]; simpl; split; congruence.
Qed.

Lemma set_heap_same (w : World) : set_heap (heap w) w = w.
Proof. by destruct w. Qed.

(** The loop of the effect, started at index [i] over distinct filters
    that exist, with a gain for each index it reaches. *)
Lemma retarget_loop (gs : list number) (now : number) (fs : list Ref) :
  ∀ (i : nat) (w : World),
    NoDup fs →
    (∀ k r, fs !! k = Some r → is_Some (biquads w !! r) ∧ is_Some (gs !! (i + k))) →
    ∃ h',
      array_forEach_from (retarget gs now) i fs w = (Normal tt, set_heap h' w) ∧
      (∀ k r, fs !! k = Some r →
         ∃ n g, biquads w !! r = Some n ∧ gs !! (i + k) = Some g ∧
                h' !! r = Some (OBiquad (retargeted g now n))) ∧
      (∀ r, r ∉ fs → h' !! r = heap w !! r).
Proof.
  induction fs as [|r fs IH]; intros i w Hnd Hfs.
  - exists (heap w). simpl. unfold ret. rewrite set_heap_same.
    split; [done|]. split; [|done]. intros k r Hk. by rewrite lookup_nil in Hk.
  - apply NoDup_cons in Hnd as [Hr Hnd].
    destruct (Hfs 0 r eq_refl) as [[n Hn] [g Hg]].
    rewrite Nat.add_0_r in Hg.
    pose proof Hn as Hh. apply biquads_lookup in Hh.
    set (w1 := set_heap (<[r := OBiquad (retargeted g now n)]> (heap w)) w).
    assert (Hother : ∀ r', r' ≠ r → heap w1 !! r' = heap w !! r').
    { intros r' Hne. subst w1. simpl_world. by rewrite lookup_insert_ne. }
    destruct (IH (S i) w1 Hnd) as (h' & Hrun & Hin & Hout).
    { intros k r' Hk.
      assert (r' ≠ r) as Hne by (intros ->; apply Hr; by eapply list_elem_of_lookup_2).
      destruct (Hfs (S k) r' Hk) as [[n' Hn'] Hg'].
      split.
      - exists n'. apply biquads_lookup. rewrite Hother by done.
        by apply biquads_lookup.
      - by rewrite Nat.add_succ_comm. }
    exists h'. split; [|split].
    + cbn [array_forEach_from].
      rewrite (bind_normal _ _ w tt w1); [done|].
      unfold retarget, index. rewrite Hg.
      rewrite (bind_normal _ _ w g w) by done.
      unfold gain_setTargetAtTime, on_biquad. by rewrite Hh.
    + intros [|k] r' Hk.
      * injection Hk as <-. exists n, g. rewrite Nat.add_0_r.
        split; [done|]. split; [done|].
        rewrite Hout by done. subst w1. simpl_world. by rewrite lookup_insert_eq.
      * destruct (Hin k r' Hk) as (n' & g' & Hn' & Hg' & Hh').
        assert (r' ≠ r) as Hne by (intros ->; apply Hr; by eapply list_elem_of_lookup_2).
        exists n', g'. rewrite <- Nat.add_succ_comm. split; [|done].
        apply biquads_lookup. rewrite <- Hother by done. by apply biquads_lookup.
    + intros r' Hr'. apply not_elem_of_cons in Hr' as [Hne Hr'].
      rewrite Hout by done. by apply Hother.
Qed.

Lemma chain_built_length (w : World) : chain_built w → length (filtersRef w) = 6.
Proof. intros [_ _ _ H]. by apply Forall2_length in H. Qed.

Lemma chain_built_filter (w : World) (k : nat) (r : Ref) :
  chain_built w → filtersRef w !! k = Some r →
  ∃ n f, biquads w !! r = Some n ∧ freqs !! k = Some f ∧
         BiquadFilterNode.type n = peaking ∧
         AudioParam.value (BiquadFilterNode.frequency n) = f ∧
         AudioParam.value (BiquadFilterNode.Q n) = 1%Q.
Proof.
  intros [_ _ _ H] Hk.
  destruct (Forall2_lookup_l _ _ _ _ _ H Hk) as (f & Hf & n & Hn & ?).
  by exists n, f.
Qed.

Lemma gains_lookup (on : bool) (k : nat) :
  k < 6 → is_Some (gains on !! k).
Proof.
  intros Hk. apply lookup_lt_is_Some. by destruct on.
Qed.

(** The effect on a built chain: it completes, changes nothing but the
    heap, and retargets every filter of the chain at the context's
    current time. *)
Lemma eq_effect_built (on : bool) (w : World) (ctx : Ref) (c : AudioContext.t) :
  chain_built w → audioContextRef w = Some ctx → context_at w ctx = Some c →
  ∃ h',
    eq_effect on w = (Normal undefined, set_heap h' w) ∧
    (∀ k r, filtersRef w !! k = Some r →
       ∃ n g, biquads w !! r = Some n ∧ gains on !! k = Some g ∧
              h' !! r = Some (OBiquad (retargeted g (AudioContext.currentTime c) n))) ∧
    (∀ r, r ∉ filtersRef w → h' !! r = heap w !! r).
Proof.
  intros Hb Hctx Hc.
  pose proof (chain_built_length w Hb) as Hlen.
  destruct (retarget_loop (gains on) (AudioContext.currentTime c) (filtersRef w) 0 w)
    as (h' & Hrun & Hin & Hout).
  { apply Hb. }
  { intros k r Hk. destruct (chain_built_filter w k r Hb Hk) as (n & f & Hn & _).
    split; [by exists n|]. apply gains_lookup.
    apply lookup_lt_Some in Hk. simpl. lia. }
  exists h'. split; [|done].
  unfold eq_effect. unfold_cmd. rewrite Hctx.
  destruct (filtersRef w) as [|f0 fs] eqn:Hfs; [discriminate Hlen|].
  cbn [length Nat.eqb].
  unfold currentTime. unfold context_at in Hc.
  destruct (heap w !! ctx) as [[c'|?|?]|]; try discriminate Hc.
  injection Hc as ->.
  unfold array_forEach. by rewrite Hrun.
Qed.

(** A built chain stays built as long as the refs stay, contexts stay
    contexts, and the filters of the chain keep their shape, frequency
    and Q. *)
Lemma chain_built_stable (w w' : World) :
  audioContextRef w' = audioContextRef w →
  bufferRef w' = bufferRef w →
  filtersRef w' = filtersRef w →
  (∀ r, is_Some (context_at w r) → is_Some (context_at w' r)) →
  (∀ r n, r ∈ filtersRef w → biquads w !! r = Some n →
     ∃ n', biquads w' !! r = Some n' ∧
           BiquadFilterNode.type n' = BiquadFilterNode.type n ∧
           BiquadFilterNode.frequency n' = BiquadFilterNode.frequency n ∧
           BiquadFilterNode.Q n' = BiquadFilterNode.Q n) →
  chain_built w → chain_built w'.
Proof.
  intros Hc Hb Hf Hctx Hflt [(ctx & Hctx1 & Hctx2) Hbuf Hnd Hall].
  split.
  - exists ctx. rewrite Hc. split; [done|]. by apply Hctx.
  - by rewrite Hb.
  - by rewrite Hf.
  - rewrite Hf. apply Forall2_same_length_lookup.
    apply Forall2_same_length_lookup in Hall as [Hlen Hall].
    split; [done|]. intros i r f Hr Hfr.
    destruct (Hall i r f Hr Hfr) as (n & Hn & Hty & Hfq & HQ).
    destruct (Hflt r n) as (n' & Hn' & Hty' & Hfq' & HQ'); [|done|].
    { by eapply list_elem_of_lookup_2. }
    exists n'. by rewrite Hty', Hfq', HQ'.
Qed.

Lemma chain_built_frame (w w' : World) :
  engine_frame w w' → chain_built w → chain_built w'.
Proof.
  intros [? ? ? ? Hbq ?]. apply chain_built_stable; try done.
  intros r n _ Hn. exists n. by rewrite Hbq.
Qed.

Lemma chain_built_set_eqOn (v : bool) (w : World) :
  chain_built w → chain_built (set_eqOn v w).
Proof.
  apply chain_built_stable; try done.
  intros r n _ Hn. by exists n.
Qed.

(** The world the effect leaves on a built chain is built again. *)
Lemma chain_built_retargeted (on : bool) (now : number) (w : World) (h' : gmap nat Obj) :
  chain_built w →
  (∀ k r, filtersRef w !! k = Some r →
     ∃ n g, biquads w !! r = Some n ∧ gains on !! k = Some g ∧
            h' !! r = Some (OBiquad (retargeted g now n))) →
  (∀ r, r ∉ filtersRef w → h' !! r = heap w !! r) →
  chain_built (set_heap h' w).
Proof.
  intros Hb Hin Hout. apply (chain_built_stable w); try done.
  - intros r [c Hr]%context_at_Some. apply context_at_Some. exists c.
    simpl_world. rewrite Hout; [done|].
    intros [k Hk]%list_elem_of_lookup_1.
    destruct (Hin k r Hk) as (n & _ & Hn%biquads_lookup & _). congruence.
  - intros r n [k Hk]%list_elem_of_lookup_1 Hn.
    destruct (Hin k r Hk) as (n0 & g & Hn0 & _ & Hh').
    assert (n0 = n) as -> by congruence.
    exists (retargeted g now n). split; [|done].
    by apply biquads_lookup.
Qed.

(** [setEqOn] on a built chain: nothing when the value stays, the state
    change and the effect when it moves. *)
Lemma setEqOn_same (f : bool → bool) (w : World) :
  f (eqOn w) = eqOn w → setEqOn f w = (Normal undefined, w).
Proof.
  intros H. unfold setEqOn. unfold_cmd. rewrite H.
  by rewrite Bool.eqb_reflx.
Qed.

Lemma setEqOn_built (f : bool → bool) (w : World) (ctx : Ref) (c : AudioContext.t) :
  chain_built w → audioContextRef w = Some ctx → context_at w ctx = Some c →
  f (eqOn w) ≠ eqOn w →
  ∃ h',
    setEqOn f w = (Normal undefined, set_heap h' (set_eqOn (f (eqOn w)) w)) ∧
    (∀ k r, filtersRef w !! k = Some r →
       ∃ n g, biquads w !! r = Some n ∧ gains (f (eqOn w)) !! k = Some g ∧
              h' !! r = Some (OBiquad (retargeted g (AudioContext.currentTime c) n))) ∧
    (∀ r, r ∉ filtersRef w → h' !! r = heap w !! r).
Proof.
  intros Hb Hctx Hc Hne.
  destruct (eq_effect_built (f (eqOn w)) (set_eqOn (f (eqOn w)) w) ctx c)
    as (h' & Hrun & Hin & Hout); [by apply chain_built_set_eqOn|done|done|].
  exists h'. split; [|done].
  unfold setEqOn. unfold_cmd.
  destruct (Bool.eqb (f (eqOn w)) (eqOn w)) eqn:He.
  - by apply Bool.eqb_prop in He.
  - by rewrite Hrun.
Qed.

Lemma setEqOn_chain_built (f : bool → bool) (w : World) :
  chain_built w → chain_built (setEqOn f w).2.
Proof.
  intros Hb. destruct (decide (f (eqOn w) = eqOn w)) as [He|He].
  - by rewrite setEqOn_same.
  - pose proof Hb as [(ctx & Hctx & [c Hc]) _ _ _].
    destruct (setEqOn_built f w ctx c Hb Hctx Hc He) as (h' & -> & Hin & Hout).
    simpl_world.
    apply (chain_built_retargeted (f (eqOn w)) (AudioContext.currentTime c)
             (set_eqOn (f (eqOn w)) w)); try done.
    by apply chain_built_set_eqOn.
Qed.

Lemma elapse_run (dt : number) (w : World) :
  elapse dt w = (Normal tt, set_heap (tick dt <$> heap w) w).
Proof. done. Qed.

Lemma elapse_frame (dt : number) (w : World) : engine_frame w (elapse dt w).2.
Proof.
  rewrite elapse_run. split; simpl_world; try done.
  - unfold biquads. simpl_world. apply map_eq. intros r.
    rewrite !lookup_omap, lookup_fmap.
    destruct (heap w !! r) as [[c|n|n]|]; simpl; try done.
    by destruct (AudioContext.state c).
  - intros r [c Hr]%context_at_Some. apply context_at_Some. simpl_world.
    rewrite lookup_fmap, Hr. simpl.
    destruct (AudioContext.state c); by eexists.
Qed.

Lemma handle_chain_built (e : Event) (w : World) :
  chain_built w → chain_built (handle e w).2.
Proof.
  intros Hb. destruct e as [shown| |dt]; simpl.
  - apply (chain_built_frame w); [apply togglePlay_frame|done].
  - by apply setEqOn_chain_built.
  - apply (chain_built_frame w); [|done]. exact (elapse_frame dt w).
Qed.

Lemma run_chain_built (es : list Event) (w : World) :
  chain_built w → chain_built (run es w).
Proof.
  revert w. induction es as [|e es IH]; intros w Hb; [done|].
  simpl. apply IH. by apply handle_chain_built.
Qed.

(** ** Mounting the page *)

Lemma mount_success (env : Platform) (bytes : ArrayBuffer) (buf : AudioBuffer) :
  response_body env = Some bytes →
  has_AudioContext env || has_webkitAudioContext env = true →
  decoder env bytes = Some buf →
  Page_mount env initial = (Normal undefined, loaded (created_state env) buf).
Proof.
  destruct env as [body hA hW st dec]. simpl. intros -> Hctor Hdec.
  unfold loaded.
  destruct hA, hW; try discriminate Hctor;
    run_mount; rewrite Hdec; vm_compute; reflexivity.
Qed.

Lemma mount_decode_failure (env : Platform) (bytes : ArrayBuffer) :
  response_body env = Some bytes →
  has_AudioContext env || has_webkitAudioContext env = true →
  decoder env bytes = None →
  Page_mount env initial = (Normal undefined, load_failed (created_state env)).
Proof.
  destruct env as [body hA hW st dec]. simpl. intros -> Hctor Hdec.
  unfold load_failed.
  destruct hA, hW; try discriminate Hctor;
    run_mount; rewrite Hdec; vm_compute; reflexivity.
Qed.

(** The identities the load hands out: the context first, then the six
    filters in the order of [freqs]. *)
Lemma loaded_refs (st : AudioContextState) (buf : AudioBuffer) :
  audioContextRef (loaded st buf) = Some 0 ∧
  bufferRef (loaded st buf) = Some buf ∧
  filtersRef (loaded st buf) = [1; 2; 3; 4; 5; 6] ∧
  sourceRef (loaded st buf) = None ∧
  isPlaying (loaded st buf) = false ∧
  eqOn (loaded st buf) = false ∧
  context_at (loaded st buf) 0 = Some (AudioContext.mk st 0%Q).
Proof. vm_compute. by repeat split. Qed.

Lemma loaded_biquads (st : AudioContextState) (buf : AudioBuffer) :
  biquads (loaded st buf) =
    list_to_map
      [(1, built_filter 60%Q (ToNode 2)); (2, built_filter 150%Q (ToNode 3));
       (3, built_filter 250%Q (ToNode 4)); (4, built_filter 1000%Q (ToNode 5));
       (5, built_filter 4000%Q (ToNode 6));
       (6, built_filter 15000%Q (ToDestination 0))].
Proof. vm_compute. reflexivity. Qed.

#[local] Opaque loaded load_failed.

Lemma loaded_chain_built (st : AudioContextState) (buf : AudioBuffer) :
  chain_built (loaded st buf).
Proof.
  destruct (loaded_refs st buf) as (Hc & Hb & Hf & _ & _ & _ & Hctx).
  split.
  - exists 0. rewrite Hc, Hctx. split; [reflexivity|by eexists].
  - rewrite Hb. by eexists.
  - rewrite Hf. apply NoDup_ListNoDup.
    repeat (constructor; [simpl; intuition lia|]). constructor.
  - rewrite Hf, loaded_biquads. unfold freqs.
    constructor; [exists (built_filter 60%Q (ToNode 2)); vm_compute; by repeat split|].
    constructor; [exists (built_filter 150%Q (ToNode 3)); vm_compute; by repeat split|].
    constructor; [exists (built_filter 250%Q (ToNode 4)); vm_compute; by repeat split|].
    constructor; [exists (built_filter 1000%Q (ToNode 5)); vm_compute; by repeat split|].
    constructor; [exists (built_filter 4000%Q (ToNode 6)); vm_compute; by repeat split|].
    constructor; [exists (built_filter 15000%Q (ToDestination 0)); vm_compute; by repeat split|].
    constructor.
Qed.

Lemma loaded_filter (st : AudioContextState) (buf : AudioBuffer) (i : nat) (f : number) :
  freqs !! i = Some f →
  ∃ r n, filtersRef (loaded st buf) !! i = Some r ∧
         biquads (loaded st buf) !! r = Some n ∧
         n = built_filter f (match filtersRef (loaded st buf) !! S i with
                             | Some next => ToNode next
                             | None => ToDestination 0
                             end).
Proof.
  destruct (loaded_refs st buf) as (_ & _ & Hf & _).
  rewrite Hf, loaded_biquads. intros Hi.
  do 6 (destruct i as [|i];
        [injection Hi as <-; eexists _, _; split; [reflexivity|];
         split; [vm_compute; reflexivity|reflexivity]|]).
  discriminate Hi.
Qed.

(** Whatever the platform does, mounting leaves no session and a page
    that is not playing. *)
Lemma mount_no_session (env : Platform) :
  sourceRef (Page_mount env initial).2 = None ∧
  isPlaying (Page_mount env initial).2 = false.
Proof.
  destruct env as [[bytes|] hA hW st dec].
  - destruct (dec bytes) as [buf|] eqn:Hdec.
    + destruct hA, hW; run_mount; try rewrite Hdec; vm_compute; by split.
    + destruct hA, hW; run_mount; try rewrite Hdec; vm_compute; by split.
  - vm_compute. by split.
Qed.

Lemma reachable_chain_built (env : Platform) (bytes : ArrayBuffer) (buf : AudioBuffer)
    (es : list Event) :
  response_body env = Some bytes →
  has_AudioContext env || has_webkitAudioContext env = true →
  decoder env bytes = Some buf →
  chain_built (run es (Page_mount env initial).2).
Proof.
  intros Hb Hc Hd. rewrite (mount_success env bytes buf) by done.
  apply run_chain_built, loaded_chain_built.
Qed.

(** ** Commands that write nothing but the heap *)

Lemma heap_only_ret {A} (a : A) : heap_only (ret a).
Proof. intros w. exists (heap w). by rewrite set_heap_same. Qed.

Lemma heap_only_throw {A} (e : Exn) : heap_only (@throw A e).
Proof. intros w. exists (heap w). by rewrite set_heap_same. Qed.

Lemma heap_only_bind {A B} (m : M A) (k : A → M B) :
  heap_only m → (∀ a, heap_only (k a)) → heap_only (m ≫= k).
Proof.
  intros Hm Hk w. destruct (Hm w) as [h Hh].
  unfold mbind, M_bind, bind. destruct (m w) as [[a|e] w1]; simpl in Hh; subst w1.
  - destruct (Hk a (set_heap h w)) as [h' Hh']. exists h'. by rewrite Hh'.
  - by exists h.
Qed.

Lemma heap_only_index {A} (xs : list A) (i : nat) : heap_only (index xs i).
Proof.
  unfold index. destruct (xs !! i); [apply heap_only_ret|apply heap_only_throw].
Qed.

Lemma heap_only_on_biquad (r : Ref) (f : BiquadFilterNode.t → BiquadFilterNode.t) :
  heap_only (on_biquad r f).
Proof.
  intros w. unfold on_biquad.
  destruct (heap w !! r) as [[c|n|n]|]; simpl;
    try (exists (heap w); by rewrite set_heap_same).
  by eexists.
Qed.

Lemma heap_only_forEach {A} (f : A → nat → M unit) (xs : list A) :
  (∀ x i, heap_only (f x i)) → ∀ i, heap_only (array_forEach_from f i xs).
Proof.
  intros Hf. induction xs as [|x xs IH]; intros i; simpl.
  - apply heap_only_ret.
  - apply heap_only_bind; [apply Hf|]. intros _. apply IH.
Qed.

Lemma heap_only_eq_effect (on : bool) : heap_only (eq_effect on).
Proof.
  intros w. unfold eq_effect. unfold mbind, M_bind, bind at 1 2, get.
  destruct (audioContextRef w) as [ctx|]; [|apply heap_only_ret].
  destruct (length (filtersRef w) =? 0)%nat; [apply heap_only_ret|].
  apply heap_only_bind.
  - intros w'. unfold currentTime. exists (heap w'). rewrite set_heap_same.
    by destruct (heap w' !! ctx) as [[?|?|?]|].
  - intros now. apply heap_only_bind; [|intros _; apply heap_only_ret].
    apply heap_only_forEach. intros r i.
    apply heap_only_bind; [apply heap_only_index|].
    intros g. apply heap_only_on_biquad.
Qed.

(** [setEqOn] moves [eqOn] and the heap, nothing else. *)
Lemma setEqOn_writes (f : bool → bool) (w : World) :
  ∃ h, (setEqOn f w).2 = set_heap h (set_eqOn (f (eqOn w)) w).
Proof.
  unfold setEqOn. unfold mbind, M_bind, bind at 1, get.
  destruct (Bool.eqb (f (eqOn w)) (eqOn w)) eqn:He.
  - apply Bool.eqb_prop in He. exists (heap w). rewrite He. by destruct w.
  - unfold bind, modify.
    destruct (heap_only_eq_effect (f (eqOn w)) (set_eqOn (f (eqOn w)) w)) as [h Hh].
    exists h. destruct (eq_effect (f (eqOn w)) (set_eqOn (f (eqOn w)) w)) as [[v|e] w'];
      simpl in Hh; by subst w'.
Qed.

Lemma handle_session_held (e : Event) (w : World) :
  session_held w → session_held (handle e w).2.
Proof.
  intros Hw. destruct e as [shown| |dt]; simpl.
  - by apply togglePlay_session_held.
  - destruct (setEqOn_writes negb w) as [h Hh].
    unfold eq_toggle_onClick. by rewrite Hh.
  - done.
Qed.

Lemma run_session_held (es : list Event) (w : World) :
  session_held w → session_held (run es w).
Proof.
  revert w. induction es as [|e es IH]; intros w Hw; [done|].
  simpl. apply IH. by apply handle_session_held.
Qed.

(** ** The curves *)

(** C1. For either position of the switch the active curve is the fixed
    constant array: [[0,0,0,0,0,0]] when off and [[12,10,4,-6,-8,-12]]
    when on, six gains in the order of the frequencies 60, 150, 250,
    1000, 4000 and 15000 Hz.  The selection is a function of the flag
    alone ([EQGraph] takes no world), the effect's [gains] are the same
    array the chart plots, the page plots the series of its own [eqOn],
    and on a loaded page the gains the filters head for after the switch
    is set are the plotted series. *)
Theorem C1_active_curve (enabled : bool) :
  data (EQGraph enabled) =
    (if enabled then [12; 10; 4; -6; -8; -12] else [0; 0; 0; 0; 0; 0])%Q ∧
  length (data (EQGraph enabled)) = 6 ∧
  zip freqs (data (EQGraph enabled)) =
    (if enabled
     then [(60, 12); (150, 10); (250, 4); (1000, -6); (4000, -8); (15000, -12)]
     else [(60, 0); (150, 0); (250, 0); (1000, 0); (4000, 0); (15000, 0)])%Q ∧
  labels (EQGraph enabled) =
    ["60Hz"; "150Hz"; "250Hz"; "1kHz"; "4kHz"; "15kHz"]%string ∧
  gains enabled = data (EQGraph enabled) ∧
  (∀ w, data (Page_graph w) = gains (eqOn w)) ∧
  (∀ st buf,
     target_gains (setCurveEnabled enabled (loaded st buf)).2 =
       Some <$> data (Page_graph (setCurveEnabled enabled (loaded st buf)).2)).
Proof.
  split; [by destruct enabled|].
  split; [by destruct enabled|].
  split; [by destruct enabled|].
  split; [done|].
  split; [by destruct enabled|].
  split.
  - intros w. unfold Page_graph. by destruct (eqOn w).
  - intros st buf. destruct enabled; vm_compute; reflexivity.
Qed.

(** ** Retargeting *)

Lemma filter_at_lookup (w : World) (i : nat) (r : Ref) :
  filtersRef w !! i = Some r → filter_at w i = biquads w !! r.
Proof. intros H. unfold filter_at. by rewrite H. Qed.

Lemma target_gains_lookup (w : World) (i : nat) :
  target_gains w !! i =
    (fun r => (fun n => AudioParam.target_of (BiquadFilterNode.gain n)) <$> biquads w !! r)
      <$> filtersRef w !! i.
Proof. unfold target_gains. apply list_lookup_fmap. Qed.

Lemma target_of_retargeted (g now : number) (n : BiquadFilterNode.t) :
  AudioParam.target_of (BiquadFilterNode.gain (retargeted g now n)) = g.
Proof.
  unfold retargeted, AudioParam.target_of. simpl. by rewrite last_snoc.
Qed.

(** C2. When the switch moves on a page whose chain is built, the
    handler completes, the flag flips, and each of the six filters gets
    exactly one more automation on its gain: an exponential approach
    with time constant 0.12, starting at the context's current time,
    towards the gain the selected curve has at that filter's index and
    frequency.  The value assigned to the gain is not touched, so there
    is no jump. *)
Theorem C2_switch_retargets_exponentially (w : World) (ctx : Ref) (c : AudioContext.t) :
  chain_built w → audioContextRef w = Some ctx → context_at w ctx = Some c →
  ∃ w',
    eq_toggle_onClick w = (Normal undefined, w') ∧
    eqOn w' = negb (eqOn w) ∧
    length (filtersRef w') = 6 ∧
    ∀ i f, freqs !! i = Some f →
      ∃ n n' g,
        filter_at w i = Some n ∧ filter_at w' i = Some n' ∧
        AudioParam.value (BiquadFilterNode.frequency n') = f ∧
        data (Page_graph w') !! i = Some g ∧
        AudioParam.events (BiquadFilterNode.gain n') =
          AudioParam.events (BiquadFilterNode.gain n) ++
          [AudioParam.SetTargetAtTime g (AudioContext.currentTime c) 0.12%Q] ∧
        AudioParam.value (BiquadFilterNode.gain n') =
          AudioParam.value (BiquadFilterNode.gain n) ∧
        BiquadFilterNode.type n' = BiquadFilterNode.type n ∧
        BiquadFilterNode.frequency n' = BiquadFilterNode.frequency n ∧
        BiquadFilterNode.Q n' = BiquadFilterNode.Q n ∧
        BiquadFilterNode.outputs n' = BiquadFilterNode.outputs n.
Proof.
  intros Hb Hctx Hc.
  destruct (setEqOn_built negb w ctx c Hb Hctx Hc) as (h' & Hrun & Hin & _).
  { by destruct (eqOn w). }
  eexists. split; [exact Hrun|]. simpl_world.
  split; [done|]. split; [by apply chain_built_length|].
  intros i f Hf.
  assert (is_Some (filtersRef w !! i)) as [r Hr].
  { apply lookup_lt_is_Some. rewrite (chain_built_length w Hb).
    apply lookup_lt_Some in Hf. by simpl in Hf. }
  destruct (Hin i r Hr) as (n & g & Hn & Hg & Hh').
  destruct (chain_built_filter w i r Hb Hr) as (n0 & f0 & Hn0 & Hf0 & _ & Hfq & _).
  assert (n0 = n) as -> by congruence. assert (f0 = f) as -> by congruence.
  exists n, (retargeted g (AudioContext.currentTime c) n), g.
  split; [by rewrite (filter_at_lookup w i r)|].
  split.
  { rewrite (filter_at_lookup _ i r) by done. by apply biquads_lookup. }
  split; [done|].
  split.
  { unfold Page_graph. simpl_world. rewrite <- Hg. by destruct (eqOn w). }
  by repeat split.
Qed.

Lemma C2_switch_retargets_exponentially_witness :
  ∃ w',
    eq_toggle_onClick ready = (Normal undefined, w') ∧
    eqOn w' = true ∧
    length (filtersRef w') = 6 ∧
    ∀ i f, freqs !! i = Some f →
      ∃ n n' g,
        filter_at ready i = Some n ∧ filter_at w' i = Some n' ∧
        AudioParam.value (BiquadFilterNode.frequency n') = f ∧
        data (Page_graph w') !! i = Some g ∧
        AudioParam.events (BiquadFilterNode.gain n') =
          AudioParam.events (BiquadFilterNode.gain n) ++
          [AudioParam.SetTargetAtTime g 0%Q 0.12%Q] ∧
        AudioParam.value (BiquadFilterNode.gain n') =
          AudioParam.value (BiquadFilterNode.gain n) ∧
        BiquadFilterNode.type n' = BiquadFilterNode.type n ∧
        BiquadFilterNode.frequency n' = BiquadFilterNode.frequency n ∧
        BiquadFilterNode.Q n' = BiquadFilterNode.Q n ∧
        BiquadFilterNode.outputs n' = BiquadFilterNode.outputs n.
Proof.
  apply (C2_switch_retargets_exponentially ready 0 (AudioContext.mk suspended 0%Q)).
  - exact (loaded_chain_built suspended track).
  - vm_compute. reflexivity.
  - vm_compute. reflexivity.
Defined.

(** C4. On a page whose chain is built, switching the curve on and then,
    any time later, off again completes both times and leaves every one
    of the six filters with a newest retarget command whose target is the
    flat curve's 0 dB, so every filter is heading for 0 dB. *)
Theorem C4_on_then_off_targets_flat (w : World) (dt : number) :
  chain_built w →
  ∃ w1 w3,
    setCurveEnabled true w = (Normal undefined, w1) ∧
    setCurveEnabled false (elapse dt w1).2 = (Normal undefined, w3) ∧
    eqOn w1 = true ∧ eqOn w3 = false ∧
    target_gains w3 = replicate 6 (Some 0%Q) ∧
    ∀ i g, flatData !! i = Some g →
      ∃ n t, filter_at w3 i = Some n ∧
             last (AudioParam.events (BiquadFilterNode.gain n)) =
               Some (AudioParam.SetTargetAtTime g t 0.12%Q) ∧
             g = 0%Q.
Proof.
  intros Hb.
  (* on *)
  assert (∃ w1, setCurveEnabled true w = (Normal undefined, w1) ∧
                eqOn w1 = true ∧ chain_built w1) as (w1 & Hrun1 & Hon1 & Hb1).
  { destruct (eqOn w) eqn:Hon.
    - exists w. split; [|done]. apply setEqOn_same. by rewrite Hon.
    - pose proof Hb as [(ctx & Hctx & [c Hc]) _ _ _].
      destruct (setEqOn_built (fun _ => true) w ctx c Hb Hctx Hc)
        as (h' & Hrun & Hin & Hout); [by rewrite Hon|].
      eexists. split; [exact Hrun|]. split; [done|].
      apply (chain_built_retargeted true (AudioContext.currentTime c)
               (set_eqOn true w)); try done.
      by apply chain_built_set_eqOn. }
  (* later *)
  set (w2 := (elapse dt w1).2).
  assert (chain_built w2) as Hb2
    by (apply (chain_built_frame w1); [apply elapse_frame|done]).
  assert (eqOn w2 = true) as Hon2 by done.
  (* off *)
  pose proof Hb2 as [(ctx & Hctx & [c Hc]) _ _ _].
  destruct (setEqOn_built (fun _ => false) w2 ctx c Hb2 Hctx Hc)
    as (h' & Hrun3 & Hin & Hout); [by rewrite Hon2|].
  exists w1. eexists. split; [done|]. split; [exact Hrun3|].
  split; [done|]. split; [done|].
  assert (Hflt : ∀ i, i < 6 →
            ∃ r n, filtersRef w2 !! i = Some r ∧ biquads w2 !! r = Some n ∧
                   biquads (set_heap h' (set_eqOn false w2)) !! r =
                     Some (retargeted 0%Q (AudioContext.currentTime c) n)).
  { intros i Hi.
    assert (is_Some (filtersRef w2 !! i)) as [r Hr].
    { apply lookup_lt_is_Some. by rewrite (chain_built_length w2 Hb2). }
    destruct (Hin i r Hr) as (n & g & Hn & Hg & Hh').
    assert (g = 0%Q) as ->.
    { do 6 (destruct i as [|i]; [by injection Hg as <-|]). lia. }
    exists r, n. split; [done|]. split; [done|]. by apply biquads_lookup. }
  split.
  - apply list_eq. intros i. rewrite target_gains_lookup. simpl_world.
    destruct (decide (i < 6)) as [Hi|Hi].
    + destruct (Hflt i Hi) as (r & n & Hr & _ & Hn').
      rewrite Hr. cbn [fmap option_fmap option_map]. rewrite Hn'.
      cbn [fmap option_fmap option_map]. rewrite target_of_retargeted.
      symmetry. by apply lookup_replicate_2.
    + rewrite (lookup_ge_None_2 (filtersRef w2)), lookup_ge_None_2; [done| |].
      * rewrite length_replicate. lia.
      * rewrite (chain_built_length w2 Hb2). lia.
  - intros i g Hg.
    assert (i < 6) as Hi by (apply lookup_lt_Some in Hg; by simpl in Hg).
    assert (g = 0%Q) as ->.
    { do 6 (destruct i as [|i]; [by injection Hg as <-|]). lia. }
    destruct (Hflt i Hi) as (r & n & Hr & _ & Hn').
    exists (retargeted 0%Q (AudioContext.currentTime c) n), (AudioContext.currentTime c).
    split; [by rewrite (filter_at_lookup _ i r)|].
    split; [|done]. unfold retargeted. simpl. by rewrite last_snoc.
Qed.

Lemma C4_on_then_off_targets_flat_witness :
  ∃ w1 w3,
    setCurveEnabled true ready = (Normal undefined, w1) ∧
    setCurveEnabled false (elapse 2%Q w1).2 = (Normal undefined, w3) ∧
    eqOn w1 = true ∧ eqOn w3 = false ∧
    target_gains w3 = replicate 6 (Some 0%Q) ∧
    ∀ i g, flatData !! i = Some g →
      ∃ n t, filter_at w3 i = Some n ∧
             last (AudioParam.events (BiquadFilterNode.gain n)) =
               Some (AudioParam.SetTargetAtTime g t 0.12%Q) ∧
             g = 0%Q.
Proof.
  apply (C4_on_then_off_targets_flat ready 2%Q).
  exact (loaded_chain_built suspended track).
Defined.

(** ** Building the chain *)

(** C3. When the fetch, the context and the decode all go through, the
    load completes and leaves exactly six filter nodes, one per frequency
    of 60, 150, 250, 1000, 4000 and 15000 Hz in that order, each a
    peaking filter with Q 1 at its frequency, and each with exactly one
    outgoing connection: to the next filter of the chain, and from the
    last one to the context's destination. *)
Theorem C3_load_builds_the_chain (env : Platform) (bytes : ArrayBuffer) (buf : AudioBuffer) :
  response_body env = Some bytes →
  has_AudioContext env || has_webkitAudioContext env = true →
  decoder env bytes = Some buf →
  ∃ w ctx,
    Page_mount env initial = (Normal undefined, w) ∧
    audioContextRef w = Some ctx ∧
    bufferRef w = Some buf ∧
    length (filtersRef w) = 6 ∧
    NoDup (filtersRef w) ∧
    size (biquads w) = 6 ∧
    ∀ i f, freqs !! i = Some f →
      ∃ r n,
        filtersRef w !! i = Some r ∧ biquads w !! r = Some n ∧
        BiquadFilterNode.type n = peaking ∧
        AudioParam.value (BiquadFilterNode.Q n) = 1%Q ∧
        AudioParam.value (BiquadFilterNode.frequency n) = f ∧
        BiquadFilterNode.outputs n =
          [match filtersRef w !! S i with
           | Some next => ToNode next
           | None => ToDestination ctx
           end].
Proof.
  intros Hbody Hctor Hdec.
  exists (loaded (created_state env) buf), 0.
  split; [by apply (mount_success env bytes buf)|].
  destruct (loaded_refs (created_state env) buf) as (Hc & Hb & Hf & _).
  split; [done|]. split; [done|].
  split; [by rewrite Hf|].
  split; [apply (loaded_chain_built (created_state env) buf)|].
  split; [rewrite loaded_biquads; vm_compute; reflexivity|].
  intros i f Hi.
  destruct (loaded_filter (created_state env) buf i f Hi) as (r & n & Hr & Hn & ->).
  eexists r, _. split; [exact Hr|]. split; [exact Hn|]. by repeat split.
Qed.

Lemma C3_load_builds_the_chain_witness :
  ∃ w ctx,
    Page_mount good_platform initial = (Normal undefined, w) ∧
    audioContextRef w = Some ctx ∧
    bufferRef w = Some track ∧
    length (filtersRef w) = 6 ∧
    NoDup (filtersRef w) ∧
    size (biquads w) = 6 ∧
    ∀ i f, freqs !! i = Some f →
      ∃ r n,
        filtersRef w !! i = Some r ∧ biquads w !! r = Some n ∧
        BiquadFilterNode.type n = peaking ∧
        AudioParam.value (BiquadFilterNode.Q n) = 1%Q ∧
        AudioParam.value (BiquadFilterNode.frequency n) = f ∧
        BiquadFilterNode.outputs n =
          [match filtersRef w !! S i with
           | Some next => ToNode next
           | None => ToDestination ctx
           end].
Proof.
  apply (C3_load_builds_the_chain good_platform [Byte.x49; Byte.x44; Byte.x33] track);
    reflexivity.
Defined.

(** ** The flat start *)

Lemma engine_frame_trans (w1 w2 w3 : World) :
  engine_frame w1 w2 → engine_frame w2 w3 → engine_frame w1 w3.
Proof.
  intros [? ? ? ? ? H1] [? ? ? ? ? H2]. split; try congruence.
  intros r Hr. by apply H2, H1.
Qed.

Lemma run_frame (es : list Event) (w : World) :
  forallb no_toggle es = true → engine_frame w (run es w).
Proof.
  revert w. induction es as [|e es IH]; intros w Hes; [apply engine_frame_refl|].
  simpl in Hes. apply andb_prop in Hes as [He Hes].
  simpl. apply (engine_frame_trans w (handle e w).2); [|by apply IH].
  destruct e as [shown| |dt]; [apply togglePlay_frame|discriminate He|
                               exact (elapse_frame dt w)].
Qed.

Lemma frame_target_gains (w w' : World) :
  engine_frame w w' → target_gains w' = target_gains w ∧ gain_values w' = gain_values w.
Proof.
  intros [_ _ _ Hf Hb _]. unfold target_gains, gain_values. by rewrite Hf, Hb.
Qed.

(** C10. After a load that went through, every one of the six filters
    has its gain assigned 0 dB and nothing scheduled on it; and for as
    long as the curve switch is not touched (whatever the play button and
    the clock do) [eqOn] is off, every filter is at and heading for 0 dB,
    and the chart plots the same flat series. *)
Theorem C10_chain_starts_flat (env : Platform) (bytes : ArrayBuffer) (buf : AudioBuffer)
    (es : list Event) :
  response_body env = Some bytes →
  has_AudioContext env || has_webkitAudioContext env = true →
  decoder env bytes = Some buf →
  forallb no_toggle es = true →
  ∃ w,
    Page_mount env initial = (Normal undefined, w) ∧
    (∀ i f, freqs !! i = Some f →
       ∃ n, filter_at w i = Some n ∧ BiquadFilterNode.gain n = AudioParam.mk 0%Q []) ∧
    eqOn (run es w) = false ∧
    gain_values (run es w) = replicate 6 (Some 0%Q) ∧
    target_gains (run es w) = replicate 6 (Some 0%Q) ∧
    Some <$> data (Page_graph (run es w)) = gain_values (run es w).
Proof.
  intros Hbody Hctor Hdec Hes.
  exists (loaded (created_state env) buf).
  split; [by apply (mount_success env bytes buf)|].
  split.
  { intros i f Hi.
    destruct (loaded_filter (created_state env) buf i f Hi) as (r & n & Hr & Hn & Heq).
    exists n. split; [rewrite (filter_at_lookup _ i r Hr); exact Hn|].
    rewrite Heq. reflexivity. }
  pose proof (run_frame es (loaded (created_state env) buf) Hes) as Hfr.
  destruct (frame_target_gains _ _ Hfr) as [Ht Hg].
  assert (eqOn (run es (loaded (created_state env) buf)) = false) as Hon.
  { rewrite (frame_eqOn _ _ Hfr). apply (loaded_refs (created_state env) buf). }
  assert (gain_values (loaded (created_state env) buf) = replicate 6 (Some 0%Q)) as Hg0
    by (vm_compute; reflexivity).
  assert (target_gains (loaded (created_state env) buf) = replicate 6 (Some 0%Q)) as Ht0
    by (vm_compute; reflexivity).
  split; [exact Hon|].
  split; [rewrite Hg; exact Hg0|].
  split; [rewrite Ht; exact Ht0|].
  unfold Page_graph. rewrite Hon, Hg, Hg0. reflexivity.
Qed.

Lemma C10_chain_starts_flat_witness :
  ∃ w,
    Page_mount good_platform initial = (Normal undefined, w) ∧
    (∀ i f, freqs !! i = Some f →
       ∃ n, filter_at w i = Some n ∧ BiquadFilterNode.gain n = AudioParam.mk 0%Q []) ∧
    eqOn (run [PlayClick false; Elapse 1%Q; PlayClick true] w) = false ∧
    gain_values (run [PlayClick false; Elapse 1%Q; PlayClick true] w) =
      replicate 6 (Some 0%Q) ∧
    target_gains (run [PlayClick false; Elapse 1%Q; PlayClick true] w) =
      replicate 6 (Some 0%Q) ∧
    Some <$> data (Page_graph (run [PlayClick false; Elapse 1%Q; PlayClick true] w)) =
      gain_values (run [PlayClick false; Elapse 1%Q; PlayClick true] w).
Proof.
  apply (C10_chain_starts_flat good_platform [Byte.x49; Byte.x44; Byte.x33] track
           [PlayClick false; Elapse 1%Q; PlayClick true]);
    reflexivity.
Defined.

(** ** Guards *)

Lemma eq_effect_guard (on : bool) (w : World) :
  audioContextRef w = None ∨ filtersRef w = [] →
  eq_effect on w = (Normal undefined, w).
Proof.
  intros H. unfold eq_effect. unfold_cmd.
  destruct (audioContextRef w) as [ctx|]; [|done].
  destruct (filtersRef w) as [|f fs]; [done|].
  destruct H as [H|H]; discriminate H.
Qed.

Lemma setEqOn_guard (f : bool → bool) (w : World) :
  audioContextRef w = None ∨ filtersRef w = [] →
  setEqOn f w = (Normal undefined, set_eqOn (f (eqOn w)) w).
Proof.
  intros H. destruct (decide (f (eqOn w) = eqOn w)) as [He|He].
  - rewrite setEqOn_same by done. rewrite He. by destruct w.
  - unfold setEqOn. unfold_cmd.
    destruct (Bool.eqb (f (eqOn w)) (eqOn w)) eqn:Hb;
      [by apply Bool.eqb_prop in Hb|].
    by rewrite eq_effect_guard.
Qed.

Lemma load_failed_refs (st : AudioContextState) :
  audioContextRef (load_failed st) = Some 0 ∧
  bufferRef (load_failed st) = None ∧
  filtersRef (load_failed st) = [] ∧
  sourceRef (load_failed st) = None ∧
  isPlaying (load_failed st) = false ∧
  eqOn (load_failed st) = false ∧
  biquads (load_failed st) = ∅ ∧
  console (load_failed st) = ["Error loading audio:"%string].
Proof. vm_compute. by repeat split. Qed.

(** C5. The guard of [togglePlay]: in any world without a context,
    without a decoded buffer or without a chain (every world the page is
    in before the load has completed) the handler, whatever it was
    rendered with, completes without throwing and leaves the world as it
    was, so no session appears; that is so in particular on the page
    before its load.  And when the decoder rejects the bytes, the load
    itself completes (the rejection is caught and logged), leaves no
    buffer, no chain and no filter node, and from then on, whatever the
    curve switch shows, the play handler and the gain effect do nothing
    at all and [setCurveEnabled] moves the flag the chart reads and
    nothing else; each of them completes without throwing. *)
Theorem C5_guards_before_load_and_after_failure (env : Platform) (bytes : ArrayBuffer) :
  response_body env = Some bytes →
  has_AudioContext env || has_webkitAudioContext env = true →
  decoder env bytes = None →
  (∀ shown w,
     audioContextRef w = None ∨ bufferRef w = None ∨ filtersRef w = [] →
     togglePlay shown w = (Normal undefined, w)) ∧
  (∀ shown,
     togglePlay shown initial = (Normal undefined, initial) ∧
     sourceRef initial = None ∧ isPlaying initial = false) ∧
  ∃ w,
    Page_mount env initial = (Normal undefined, w) ∧
    console w = ["Error loading audio:"%string] ∧
    bufferRef w = None ∧ filtersRef w = [] ∧ biquads w = ∅ ∧
    sourceRef w = None ∧ isPlaying w = false ∧
    ∀ b shown enabled,
      togglePlay shown (set_eqOn b w) = (Normal undefined, set_eqOn b w) ∧
      eq_effect enabled (set_eqOn b w) = (Normal undefined, set_eqOn b w) ∧
      setCurveEnabled enabled (set_eqOn b w) = (Normal undefined, set_eqOn enabled w).
Proof.
  intros Hbody Hctor Hdec.
  split; [intros shown w; apply togglePlay_guard|].
  split; [intros shown; split; [apply togglePlay_guard; by left|done]|].
  exists (load_failed (created_state env)).
  split; [by apply (mount_decode_failure env bytes)|].
  destruct (load_failed_refs (created_state env))
    as (Hc & Hb & Hf & Hs & Hp & Hon & Hbq & Hcon).
  split; [exact Hcon|]. split; [exact Hb|]. split; [exact Hf|].
  split; [exact Hbq|]. split; [exact Hs|]. split; [exact Hp|].
  intros b shown enabled.
  split; [apply togglePlay_guard; right; left; exact Hb|].
  split; [apply eq_effect_guard; right; exact Hf|].
  unfold setCurveEnabled. rewrite setEqOn_guard by (right; exact Hf).
  reflexivity.
Qed.

Lemma C5_guards_before_load_and_after_failure_witness :
  (∀ shown w,
     audioContextRef w = None ∨ bufferRef w = None ∨ filtersRef w = [] →
     togglePlay shown w = (Normal undefined, w)) ∧
  (∀ shown,
     togglePlay shown initial = (Normal undefined, initial) ∧
     sourceRef initial = None ∧ isPlaying initial = false) ∧
  ∃ w,
    Page_mount bad_platform initial = (Normal undefined, w) ∧
    console w = ["Error loading audio:"%string] ∧
    bufferRef w = None ∧ filtersRef w = [] ∧ biquads w = ∅ ∧
    sourceRef w = None ∧ isPlaying w = false ∧
    ∀ b shown enabled,
      togglePlay shown (set_eqOn b w) = (Normal undefined, set_eqOn b w) ∧
      eq_effect enabled (set_eqOn b w) = (Normal undefined, set_eqOn b w) ∧
      setCurveEnabled enabled (set_eqOn b w) = (Normal undefined, set_eqOn enabled w).
Proof.
  apply (C5_guards_before_load_and_after_failure bad_platform [Byte.x00]);
    reflexivity.
Defined.

(** ** The transport *)

Lemma play_button_rendered (w : World) :
  play_button_onClick w = togglePlay (isPlaying w) w.
Proof. done. Qed.

(** What a start and a stop do on a page that passes the guard and whose
    context is live. *)
Lemma togglePlay_starts (w : World) (ctx : Ref) (c : AudioContext.t) (buf : AudioBuffer)
    (f0 : Ref) (fs : list Ref) :
  audioContextRef w = Some ctx → context_at w ctx = Some c →
  AudioContext.state c ≠ closed →
  bufferRef w = Some buf → filtersRef w = f0 :: fs →
  ∃ w' s,
    togglePlay false w = (Normal undefined, w') ∧
    heap w !! s = None ∧
    context_at w' ctx = Some (AudioContext.set_state running c) ∧
    source_at w' s = Some (session buf f0) ∧
    sourceRef w' = Some s ∧ isPlaying w' = true.
Proof.
  intros Hc Hctx Hst Hb Hf.
  rewrite (togglePlay_start w ctx buf f0 fs) by done.
  assert (heap w !! ctx = Some (OContext c)) as Hh.
  { unfold context_at in Hctx.
    destruct (heap w !! ctx) as [[c'|?|?]|]; try discriminate Hctx.
    by injection Hctx as ->. }
  destruct (resume_cases ctx w) as [(c' & Hh' & _ & ->)|[e He]].
  - assert (c' = c) as -> by congruence.
    set (h1 := <[ctx:=OContext (AudioContext.set_state running c)]> (heap w)).
    simpl_world. fold h1.
    assert (h1 !! fresh (dom h1) = None) as Hfr by apply fresh_not_in_heap.
    assert (ctx ≠ fresh (dom h1)) as Hne.
    { intros Heq. rewrite <- Heq in Hfr. subst h1.
      by rewrite lookup_insert_eq in Hfr. }
    eexists _, (fresh (dom h1)). split; [reflexivity|].
    split; [subst h1; by rewrite lookup_insert_ne in Hfr|].
    split.
    { unfold context_at. simpl_world.
      rewrite lookup_insert_ne by done. subst h1. by rewrite lookup_insert_eq. }
    split; [|done].
    unfold source_at. simpl_world. by rewrite lookup_insert_eq.
  - exfalso. unfold resume in He. rewrite Hh in He.
    destruct (AudioContext.state c); try discriminate He. by apply Hst.
Qed.

Lemma togglePlay_stops (w : World) (ctx : Ref) (buf : AudioBuffer)
    (f0 : Ref) (fs : list Ref) :
  audioContextRef w = Some ctx → bufferRef w = Some buf → filtersRef w = f0 :: fs →
  ∃ w',
    togglePlay true w = (Normal undefined, w') ∧
    sourceRef w' = None ∧ isPlaying w' = false ∧
    ∀ s n, sourceRef w = Some s → source_at w s = Some n →
           AudioBufferSourceNode.started n = true →
           source_at w' s = Some (AudioBufferSourceNode.set_stopped n).
Proof.
  intros Hc Hb Hf.
  rewrite (togglePlay_stop w ctx buf f0 fs) by done.
  eexists. split; [reflexivity|]. split; [done|]. split; [done|].
  intros s n Hs Hn Hstarted. unfold source_at in *. simpl_world.
  unfold heap_after_stop. rewrite Hs.
  destruct (heap w !! s) as [[?|?|n']|]; try discriminate Hn.
  injection Hn as ->. rewrite Hstarted. by rewrite lookup_insert_eq.
Qed.

(** C6. On a page that passes the guard and has a live context, the
    button runs the handler rendered with the page's [isPlaying].
    Rendered as not playing, the handler completes, turns the context to
    [running], creates a session under an identity no object had, with
    the decoded buffer, [loop] set, one connection into the first filter
    and started, keeps it in [sourceRef] and sets [isPlaying].  Rendered
    as playing, it completes, stops the held session if it had been
    started, clears [sourceRef] and clears [isPlaying]. *)
Theorem C6_toggle_starts_and_stops (w : World) (ctx : Ref) (c : AudioContext.t)
    (buf : AudioBuffer) (f0 : Ref) (fs : list Ref) :
  audioContextRef w = Some ctx → context_at w ctx = Some c →
  AudioContext.state c ≠ closed →
  bufferRef w = Some buf → filtersRef w = f0 :: fs →
  play_button_onClick w = togglePlay (isPlaying w) w ∧
  (∃ w' s,
     togglePlay false w = (Normal undefined, w') ∧
     heap w !! s = None ∧
     context_at w' ctx = Some (AudioContext.mk running (AudioContext.currentTime c)) ∧
     source_at w' s =
       Some {| AudioBufferSourceNode.buffer := Some buf;
               AudioBufferSourceNode.loop := true;
               AudioBufferSourceNode.outputs := [ToNode f0];
               AudioBufferSourceNode.started := true;
               AudioBufferSourceNode.stopped := false |} ∧
     sourceRef w' = Some s ∧ isPlaying w' = true) ∧
  (∃ w',
     togglePlay true w = (Normal undefined, w') ∧
     sourceRef w' = None ∧ isPlaying w' = false ∧
     ∀ s n, sourceRef w = Some s → source_at w s = Some n →
            AudioBufferSourceNode.started n = true →
            source_at w' s = Some (AudioBufferSourceNode.set_stopped n) ∧
            AudioBufferSourceNode.active (AudioBufferSourceNode.set_stopped n) = false).
Proof.
  intros Hc Hctx Hst Hb Hf.
  split; [apply play_button_rendered|]. split.
  - exact (togglePlay_starts w ctx c buf f0 fs Hc Hctx Hst Hb Hf).
  - destruct (togglePlay_stops w ctx buf f0 fs Hc Hb Hf) as (w' & Hrun & Hs & Hp & Hstop).
    exists w'. split; [done|]. split; [done|]. split; [done|].
    intros s n Hsrc Hn Hstarted. split; [by apply Hstop|].
    unfold AudioBufferSourceNode.active. simpl. by rewrite Bool.andb_false_r.
Qed.

Lemma C6_toggle_starts_and_stops_witness :
  (∃ w' s,
     togglePlay false ready = (Normal undefined, w') ∧
     heap ready !! s = None ∧
     source_at w' s = Some (session track 1) ∧
     sourceRef w' = Some s ∧ isPlaying w' = true) ∧
  (∃ w',
     togglePlay true playing = (Normal undefined, w') ∧
     sourceRef w' = None ∧ isPlaying w' = false ∧
     source_at w' 7 = Some (AudioBufferSourceNode.set_stopped (session track 1))).
Proof.
  split.
  - destruct (C6_toggle_starts_and_stops ready 0 (AudioContext.mk suspended 0%Q)
                track 1 [2; 3; 4; 5; 6])
      as (_ & (w' & s & H1 & H2 & _ & H3 & H4 & H5) & _);
      [vm_compute; reflexivity|vm_compute; reflexivity|discriminate|
       vm_compute; reflexivity|vm_compute; reflexivity|].
    exists w', s. repeat split; assumption.
  - destruct (C6_toggle_starts_and_stops playing 0 (AudioContext.mk running 0%Q)
                track 1 [2; 3; 4; 5; 6])
      as (_ & _ & (w' & H1 & H2 & H3 & H4));
      [vm_compute; reflexivity|vm_compute; reflexivity|discriminate|
       vm_compute; reflexivity|vm_compute; reflexivity|].
    exists w'. repeat split; try assumption.
    apply (H4 7 (session track 1)); vm_compute; reflexivity.
Defined.

Lemma togglePlay_never_bool (shown : bool) (w : World) (b : bool) :
  (togglePlay shown w).1 ≠ Normal (VBool b).
Proof.
  destruct (audioContextRef w) as [ctx|] eqn:Hc;
    [|by rewrite togglePlay_guard by auto].
  destruct (bufferRef w) as [buf|] eqn:Hb;
    [|by rewrite togglePlay_guard by auto].
  destruct (filtersRef w) as [|f0 fs] eqn:Hf;
    [by rewrite togglePlay_guard by auto|].
  destruct shown.
  - by rewrite (togglePlay_stop w ctx buf f0 fs).
  - rewrite (togglePlay_start w ctx buf f0 fs) by done.
    by destruct (resume ctx w) as [[[]|e] w1].
Qed.

(** C7 as the code has it: [togglePlay] hands back no boolean.  In every
    world and however rendered, what it returns is never a boolean; on a
    page that passes the guard with a live context it returns
    [undefined], and the new state is what it leaves in [isPlaying]:
    true after a start, false after a stop. *)
Theorem C7_toggle_returns_undefined (w : World) (ctx : Ref) (c : AudioContext.t)
    (buf : AudioBuffer) (f0 : Ref) (fs : list Ref) :
  audioContextRef w = Some ctx → context_at w ctx = Some c →
  AudioContext.state c ≠ closed →
  bufferRef w = Some buf → filtersRef w = f0 :: fs →
  (∀ shown w0 b, (togglePlay shown w0).1 ≠ Normal (VBool b)) ∧
  (∃ w', togglePlay false w = (Normal undefined, w') ∧ isPlaying w' = true) ∧
  (∃ w', togglePlay true w = (Normal undefined, w') ∧ isPlaying w' = false).
Proof.
  intros Hc Hctx Hst Hb Hf.
  split; [apply togglePlay_never_bool|]. split.
  - destruct (togglePlay_starts w ctx c buf f0 fs Hc Hctx Hst Hb Hf)
      as (w' & s & Hrun & _ & _ & _ & _ & Hp).
    by exists w'.
  - destruct (togglePlay_stops w ctx buf f0 fs Hc Hb Hf) as (w' & Hrun & _ & Hp & _).
    by exists w'.
Qed.

Lemma C7_toggle_returns_undefined_witness :
  (∀ shown w0 b, (togglePlay shown w0).1 ≠ Normal (VBool b)) ∧
  (∃ w', togglePlay false ready = (Normal undefined, w') ∧ isPlaying w' = true) ∧
  (∃ w', togglePlay true ready = (Normal undefined, w') ∧ isPlaying w' = false).
Proof.
  apply (C7_toggle_returns_undefined ready 0 (AudioContext.mk suspended 0%Q)
           track 1 [2; 3; 4; 5; 6]);
    [vm_compute; reflexivity|vm_compute; reflexivity|discriminate|
     vm_compute; reflexivity|vm_compute; reflexivity].
Defined.

(** C7 as stated fails: the click that starts playback on the loaded
    page leaves [isPlaying] true and returns [undefined], not [true]. *)
Lemma C7_counterexample :
  (play_button_onClick ready).1 = Normal undefined ∧
  isPlaying (play_button_onClick ready).2 = true ∧
  (play_button_onClick ready).1 ≠
    Normal (VBool (isPlaying (play_button_onClick ready).2)).
Proof. vm_compute. repeat split. discriminate. Qed.

(** C8. However rendered and in whatever world, [togglePlay] leaves
    [eqOn] and with it the plotted series as they were, leaves the chain
    and every filter node as they were, automations included, and so
    leaves every filter's assigned gain and gain target unchanged. *)
Theorem C8_transport_frames_the_curve (shown : bool) (w : World) :
  eqOn (togglePlay shown w).2 = eqOn w ∧
  Page_graph (togglePlay shown w).2 = Page_graph w ∧
  filtersRef (togglePlay shown w).2 = filtersRef w ∧
  biquads (togglePlay shown w).2 = biquads w ∧
  target_gains (togglePlay shown w).2 = target_gains w ∧
  gain_values (togglePlay shown w).2 = gain_values w ∧
  eqOn (play_button_onClick w).2 = eqOn w ∧
  target_gains (play_button_onClick w).2 = target_gains w.
Proof.
  pose proof (togglePlay_frame shown w) as Hfr.
  destruct (frame_target_gains _ _ Hfr) as [Ht Hg].
  destruct Hfr as [Hon _ _ Hf Hb _].
  split; [done|]. split; [unfold Page_graph; by rewrite Hon|].
  split; [done|]. split; [done|]. split; [done|]. split; [done|].
  rewrite play_button_rendered.
  pose proof (togglePlay_frame (isPlaying w) w) as Hfr.
  split; [apply Hfr|]. by apply frame_target_gains.
Qed.

(** The outcomes of one run of [togglePlay]: nothing about the session
    moves (the guard, or a rejected [resume]), or a start puts a session
    created under an unused identity into [sourceRef] and sets
    [isPlaying], or a stop clears both. *)
Lemma togglePlay_session_cases (shown : bool) (w : World) :
  (sourceRef (togglePlay shown w).2 = sourceRef w ∧
   isPlaying (togglePlay shown w).2 = isPlaying w ∧
   heap (togglePlay shown w).2 = heap w) ∨
  (shown = false ∧ isPlaying (togglePlay shown w).2 = true ∧
   ∃ s, sourceRef (togglePlay shown w).2 = Some s ∧ heap w !! s = None ∧
        is_Some (source_at (togglePlay shown w).2 s)) ∨
  (shown = true ∧ isPlaying (togglePlay shown w).2 = false ∧
   sourceRef (togglePlay shown w).2 = None).
Proof.
  destruct (audioContextRef w) as [ctx|] eqn:Hc;
    [|left; by rewrite togglePlay_guard by auto].
  destruct (bufferRef w) as [buf|] eqn:Hb;
    [|left; by rewrite togglePlay_guard by auto].
  destruct (filtersRef w) as [|f0 fs] eqn:Hf;
    [left; by rewrite togglePlay_guard by auto|].
  destruct shown.
  - right; right. by rewrite (togglePlay_stop w ctx buf f0 fs).
  - destruct (resume_cases ctx w) as [(c & Hh & Hst & _)|[e He]].
    + right; left.
      destruct (togglePlay_starts w ctx c buf f0 fs) as (w' & s & -> & ? & _ & ? & ? & ?);
        try done.
      { unfold context_at. by rewrite Hh. }
      split; [done|]. split; [done|]. exists s. simpl_world. by repeat split.
    + left. rewrite (togglePlay_start w ctx buf f0 fs) by done. by rewrite He.
Qed.

(** C9. In every world a mounted page can reach (whatever the platform
    did to the load, and whatever clicks, switch toggles and time
    followed, clicks that overtake the re-render included) the page
    holds a session reference exactly when [isPlaying] is true; the ref
    is one slot, so it never holds two; and one more [togglePlay] keeps
    that and either leaves the session alone, or starts and sets the ref
    to a new session, or stops and clears it. *)
Theorem C9_session_reference_invariant (env : Platform) (es : list Event) (shown : bool) :
  session_held (run es (Page_mount env initial).2) ∧
  length (option_list (sourceRef (run es (Page_mount env initial).2))) ≤ 1 ∧
  session_held (togglePlay shown (run es (Page_mount env initial).2)).2 ∧
  ((sourceRef (togglePlay shown (run es (Page_mount env initial).2)).2 =
      sourceRef (run es (Page_mount env initial).2) ∧
    isPlaying (togglePlay shown (run es (Page_mount env initial).2)).2 =
      isPlaying (run es (Page_mount env initial).2) ∧
    heap (togglePlay shown (run es (Page_mount env initial).2)).2 =
      heap (run es (Page_mount env initial).2)) ∨
   (shown = false ∧
    isPlaying (togglePlay shown (run es (Page_mount env initial).2)).2 = true ∧
    ∃ s, sourceRef (togglePlay shown (run es (Page_mount env initial).2)).2 = Some s ∧
         heap (run es (Page_mount env initial).2) !! s = None ∧
         is_Some (source_at (togglePlay shown (run es (Page_mount env initial).2)).2 s)) ∨
   (shown = true ∧
    isPlaying (togglePlay shown (run es (Page_mount env initial).2)).2 = false ∧
    sourceRef (togglePlay shown (run es (Page_mount env initial).2)).2 = None)).
Proof.
  assert (session_held (run es (Page_mount env initial).2)) as Hinv.
  { apply run_session_held. destruct (mount_no_session env) as [Hs Hp].
    unfold session_held. rewrite Hs, Hp. split; [by intros [? ?]|done]. }
  split; [done|].
  split; [by destruct (sourceRef _); simpl; lia|].
  split; [by apply togglePlay_session_held|].
  apply togglePlay_session_cases.
Qed.

(** * The rest of the engine code *)

(** ** The load and the event loop *)

(** With nothing happening during the decode, the load seen from the
    event loop is [loadAudio]. *)
Lemma loadAudio_during_nothing (env : Platform) (w : World) :
  loadAudio_during env (fun w => w) w = loadAudio env w.
Proof. reflexivity. Qed.

(** A command whose normal completions all hand back [undefined]. *)
Lemma bind_returns_undefined {A} (m : M A) (k : A → M Value) (w : World)
    (v : Value) (w' : World) :
  (∀ a w1, k a w1 = (Normal v, w') → v = undefined) →
  (m ≫= k) w = (Normal v, w') → v = undefined.
Proof.
  intros Hk. unfold mbind, M_bind, bind.
  destruct (m w) as [[a|e] w1]; [apply Hk|discriminate].
Qed.

Lemma loadAudio_during_completes (env : Platform) (meanwhile : World → World) (w : World) :
  ∃ w', loadAudio_during env meanwhile w = (Normal undefined, w').
Proof.
  unfold loadAudio_during, try_catch.
  match goal with |- ∃ w', match ?body w with _ => _ end = _ =>
    destruct (body w) as [[v|e] w1] eqn:Hbody end.
  - exists w1. f_equal. f_equal. revert Hbody.
    apply bind_returns_undefined. intros arrayBuffer w2.
    apply bind_returns_undefined. intros ctx w3.
    apply bind_returns_undefined. intros [] w4; simpl.
    + apply bind_returns_undefined. intros _ w5.
      apply bind_returns_undefined. intros _ w6.
      apply bind_returns_undefined. intros buffer w7.
      apply bind_returns_undefined. intros [] w8; simpl.
      * apply bind_returns_undefined. intros _ w9.
        apply bind_returns_undefined. intros filters w10.
        apply bind_returns_undefined. intros _ w11.
        apply bind_returns_undefined. intros last_filter w12.
        apply bind_returns_undefined. intros _ w13.
        apply bind_returns_undefined. intros _ w14.
        unfold ret. congruence.
      * unfold ret. congruence.
    + unfold ret. congruence.
  - eexists. reflexivity.
Qed.

(** ** The cleanup *)

Lemma stop_held_run (w : World) :
  try_catch
    (source ← get sourceRef;
     match source with Some s => stop s | None => ret tt end)
    (fun _ => ret tt) w
  = (Normal tt, set_heap (heap_after_stop w) w).
Proof.
  unfold heap_after_stop. unfold_cmd.
  destruct (sourceRef w) as [s|] eqn:Hs; simpl.
  - unfold stop, on_source.
    destruct (heap w !! s) as [[c|n|n]|] eqn:Hh; simpl;
      try (by rewrite set_heap_same).
    destruct (AudioBufferSourceNode.started n); simpl; [done|].
    by rewrite set_heap_same.
  - by rewrite set_heap_same.
Qed.

Lemma close_run (c : Ref) (w : World) :
  is_Some (context_at w c) →
  close c w = (Normal tt, set_heap (heap_after_close (Some c) (heap w)) w).
Proof.
  intros [x Hx]%context_at_Some. unfold close, heap_after_close. rewrite Hx.
  destruct (AudioContext.state x); try done. by rewrite set_heap_same.
Qed.

Lemma unmount_run (w : World) :
  ctx_typed w →
  Page_unmount w =
    (Normal undefined,
     set_heap (heap_after_close (audioContextRef w) (heap_after_stop w))
       (set_mounted false w)).
Proof.
  intros Hty. unfold Page_unmount.
  rewrite (bind_normal _ _ w tt (set_mounted false w)) by done.
  rewrite (bind_normal _ _ _ tt
             (set_heap (heap_after_stop w) (set_mounted false w)))
    by apply (stop_held_run (set_mounted false w)).
  rewrite (bind_normal _ _ _ (audioContextRef w)
             (set_heap (heap_after_stop w) (set_mounted false w))) by done.
  destruct (audioContextRef w) as [c|] eqn:Hc.
  - rewrite (bind_normal _ _ _ tt
               (set_heap (heap_after_close (Some c) (heap_after_stop w))
                  (set_mounted false w))); [done|].
    rewrite close_run; [done|].
    destruct (proj1 (context_at_Some w c) (Hty c Hc)) as [x' Hx'].
    apply context_at_Some. exists x'. simpl_world.
    by apply heap_after_stop_contexts.
  - rewrite (bind_normal _ _ _ tt
               (set_heap (heap_after_stop w) (set_mounted false w))); done.
Qed.

(** ** Commands that write nothing but filters *)

Lemma omap_insert_hidden {B} (f : Obj → option B) (h : gmap nat Obj) (r : Ref) (o : Obj) :
  f o = None → h !! r ≫= f = None → omap f (<[r := o]> h) = omap f h.
Proof.
  intros Ho Hr. apply map_eq. intros i. rewrite !lookup_omap.
  destruct (decide (r = i)) as [->|Hne].
  - by rewrite lookup_insert_eq, Hr.
  - by rewrite lookup_insert_ne.
Qed.

Lemma others_source (h h' : gmap nat Obj) (r : Ref) :
  others h' = others h → h' !! r ≫= as_source = h !! r ≫= as_source.
Proof.
  intros Heq.
  assert (others h' !! r = others h !! r) as Hr by by rewrite Heq.
  unfold others in Hr. rewrite !lookup_omap in Hr.
  destruct (h' !! r) as [[?|?|?]|], (h !! r) as [[?|?|?]|]; simpl in *; congruence.
Qed.

Lemma others_context (h h' : gmap nat Obj) (r : Ref) :
  others h' = others h → h' !! r ≫= as_context = h !! r ≫= as_context.
Proof.
  intros Heq.
  assert (others h' !! r = others h !! r) as Hr by by rewrite Heq.
  unfold others in Hr. rewrite !lookup_omap in Hr.
  destruct (h' !! r) as [[?|?|?]|], (h !! r) as [[?|?|?]|]; simpl in *; congruence.
Qed.

Lemma biquad_only_ret {A} (a : A) : biquad_only (ret a).
Proof. intros w. exists (heap w). by rewrite set_heap_same. Qed.

Lemma biquad_only_throw {A} (e : Exn) : biquad_only (@throw A e).
Proof. intros w. exists (heap w). by rewrite set_heap_same. Qed.

Lemma biquad_only_bind {A B} (m : M A) (k : A → M B) :
  biquad_only m → (∀ a, biquad_only (k a)) → biquad_only (m ≫= k).
Proof.
  intros Hm Hk w. destruct (Hm w) as (h & Hh & Ho).
  unfold mbind, M_bind, bind. destruct (m w) as [[a|e] w1]; simpl in Hh; subst w1.
  - destruct (Hk a (set_heap h w)) as (h' & Hh' & Ho'). exists h'.
    rewrite Hh'. split; [done|]. by rewrite Ho'.
  - by exists h.
Qed.

Lemma biquad_only_index {A} (xs : list A) (i : nat) : biquad_only (index xs i).
Proof.
  unfold index. destruct (xs !! i); [apply biquad_only_ret|apply biquad_only_throw].
Qed.

Lemma biquad_only_on_biquad (r : Ref) (f : BiquadFilterNode.t → BiquadFilterNode.t) :
  biquad_only (on_biquad r f).
Proof.
  intros w. unfold on_biquad.
  destruct (heap w !! r) as [[c|n|n]|] eqn:Hr; simpl;
    try (exists (heap w); by rewrite set_heap_same).
  eexists. split; [reflexivity|].
  apply omap_insert_hidden; [done|]. by rewrite Hr.
Qed.

Lemma biquad_only_forEach {A} (f : A → nat → M unit) (xs : list A) :
  (∀ x i, biquad_only (f x i)) → ∀ i, biquad_only (array_forEach_from f i xs).
Proof.
  intros Hf. induction xs as [|x xs IH]; intros i; simpl.
  - apply biquad_only_ret.
  - apply biquad_only_bind; [apply Hf|]. intros _. apply IH.
Qed.

Lemma biquad_only_eq_effect (on : bool) : biquad_only (eq_effect on).
Proof.
  intros w. unfold eq_effect. unfold mbind, M_bind, bind at 1 2, get.
  destruct (audioContextRef w) as [ctx|]; [|apply biquad_only_ret].
  destruct (length (filtersRef w) =? 0)%nat; [apply biquad_only_ret|].
  apply biquad_only_bind.
  - intros w'. unfold currentTime. exists (heap w'). rewrite set_heap_same.
    by destruct (heap w' !! ctx) as [[?|?|?]|].
  - intros now. apply biquad_only_bind; [|intros _; apply biquad_only_ret].
    apply biquad_only_forEach. intros r i.
    apply biquad_only_bind; [apply biquad_only_index|].
    intros g. apply biquad_only_on_biquad.
Qed.

(** [setEqOn] moves [eqOn] and filter nodes, nothing else. *)
Lemma setEqOn_others (f : bool → bool) (w : World) :
  ∃ h, (setEqOn f w).2 = set_heap h (set_eqOn (f (eqOn w)) w) ∧
       others h = others (heap w).
Proof.
  unfold setEqOn. unfold mbind, M_bind, bind at 1, get.
  destruct (Bool.eqb (f (eqOn w)) (eqOn w)) eqn:He.
  - apply Bool.eqb_prop in He. exists (heap w). rewrite He. by destruct w.
  - unfold bind, modify.
    destruct (biquad_only_eq_effect (f (eqOn w)) (set_eqOn (f (eqOn w)) w))
      as (h & Hh & Ho).
    exists h. split; [|done].
    destruct (eq_effect (f (eqOn w)) (set_eqOn (f (eqOn w)) w)) as [[v|e] w'];
      simpl in Hh; by subst w'.
Qed.

(** ** Outcomes of the load *)

Lemma mount_outcome_failed_early (env : Platform) :
  response_body env = None ∨
  has_AudioContext env || has_webkitAudioContext env = false →
  Page_mount env initial =
    (Normal undefined, add_console "Error loading audio:" initial).
Proof.
  destruct env as [[bytes|] hA hW st dec]; simpl; intros H.
  - destruct H as [H|H]; [discriminate H|].
    destruct hA, hW; try discriminate H. vm_compute. reflexivity.
  - vm_compute. reflexivity.
Qed.

Lemma loaded_console (st : AudioContextState) (buf : AudioBuffer) :
  console (loaded st buf) = [] ∧ mounted (loaded st buf) = true.
Proof. vm_compute. by split. Qed.

(** X1. Whatever the platform does and whatever the world, the load
    completes without throwing, also when other handlers run while the
    decode is pending.  On a freshly mounted page it is all or nothing:
    either the chain is built and nothing is logged; or the decoder
    rejected the bytes, the page holds the open context, no buffer, no
    chain and no filter node, and the error is logged once; or the fetch
    failed or there is no context constructor, and then no object was
    created at all, no ref is set and the error is logged once. *)
Theorem X1_load_is_all_or_nothing (env : Platform) :
  (∀ meanwhile w, ∃ w', loadAudio_during env meanwhile w = (Normal undefined, w')) ∧
  (∀ w, ∃ w', loadAudio env w = (Normal undefined, w')) ∧
  ∃ w,
    Page_mount env initial = (Normal undefined, w) ∧
    ((chain_built w ∧ console w = [] ∧
      ∃ bytes, response_body env = Some bytes ∧ bufferRef w = decoder env bytes)
     ∨
     (console w = ["Error loading audio:"%string] ∧
      (∃ bytes, response_body env = Some bytes ∧ decoder env bytes = None) ∧
      audioContextRef w = Some 0 ∧
      context_at w 0 = Some (AudioContext.mk (created_state env) 0%Q) ∧
      bufferRef w = None ∧ filtersRef w = [] ∧ biquads w = ∅)
     ∨
     (console w = ["Error loading audio:"%string] ∧
      (response_body env = None ∨
       has_AudioContext env || has_webkitAudioContext env = false) ∧
      heap w = ∅ ∧ audioContextRef w = None ∧
      bufferRef w = None ∧ filtersRef w = [])).
Proof.
  split; [intros meanwhile w; apply loadAudio_during_completes|].
  split.
  { intros w. rewrite <- loadAudio_during_nothing. apply loadAudio_during_completes. }
  destruct (response_body env) as [bytes|] eqn:Hbody.
  - destruct (has_AudioContext env || has_webkitAudioContext env) eqn:Hctor.
    + destruct (decoder env bytes) as [buf|] eqn:Hdec.
      * exists (loaded (created_state env) buf).
        split; [by apply (mount_success env bytes buf)|]. left.
        split; [apply loaded_chain_built|].
        split; [apply loaded_console|].
        exists bytes. split; [done|]. rewrite Hdec. apply loaded_refs.
      * exists (load_failed (created_state env)).
        split; [by apply (mount_decode_failure env bytes)|]. right; left.
        destruct (load_failed_refs (created_state env))
          as (Hc & Hb & Hf & _ & _ & _ & Hbq & Hcon).
        split; [exact Hcon|]. split; [by exists bytes|].
        split; [exact Hc|]. split; [vm_compute; reflexivity|].
        split; [exact Hb|]. split; [exact Hf|exact Hbq].
    + eexists. split; [apply mount_outcome_failed_early; by right|].
      right; right. split; [reflexivity|]. split; [by right|]. by repeat split.
  - eexists. split; [apply mount_outcome_failed_early; by left|].
    right; right. split; [reflexivity|]. split; [by left|]. by repeat split.
Qed.

(** X2. When the cleanup has run before the load gets to create its
    context (the page was unmounted during the fetch), the load still
    creates the context and then returns: no ref is set, no filter is
    built, the bytes are not decoded and nothing is logged.  The context
    stays in the state it was created in, held by no ref, so a further
    cleanup does not reach it. *)
Theorem X2_load_after_unmount_leaves_a_context (env : Platform) (bytes : ArrayBuffer) :
  response_body env = Some bytes →
  has_AudioContext env || has_webkitAudioContext env = true →
  ∃ w,
    loadAudio env (Page_unmount initial).2 = (Normal undefined, w) ∧
    audioContextRef w = None ∧ bufferRef w = None ∧ filtersRef w = [] ∧
    console w = [] ∧
    heap w = {[0 := OContext (AudioContext.mk (created_state env) 0%Q)]} ∧
    Page_unmount w = (Normal undefined, w).
Proof.
  destruct env as [body hA hW st dec]. simpl. intros -> Hctor.
  exists (set_heap {[0 := OContext (AudioContext.mk st 0%Q)]}
            (set_mounted false initial)).
  split; [destruct hA, hW; try discriminate Hctor; vm_compute; reflexivity|].
  split; [reflexivity|]. split; [reflexivity|]. split; [reflexivity|].
  split; [reflexivity|]. split; [reflexivity|].
  vm_compute. reflexivity.
Qed.

Lemma X2_load_after_unmount_leaves_a_context_witness :
  ∃ w,
    loadAudio good_platform (Page_unmount initial).2 = (Normal undefined, w) ∧
    audioContextRef w = None ∧ bufferRef w = None ∧ filtersRef w = [] ∧
    console w = [] ∧
    heap w = {[0 := OContext (AudioContext.mk suspended 0%Q)]} ∧
    Page_unmount w = (Normal undefined, w).
Proof.
  apply (X2_load_after_unmount_leaves_a_context good_platform
           [Byte.x49; Byte.x44; Byte.x33]); reflexivity.
Defined.

(** X3. When the cleanup runs while the decode is pending, the load
    builds nothing once the decode has settled: no buffer is kept, no
    filter node exists, the chain is empty, and the context, which the
    page held by then, has been closed by the cleanup.  Only a rejected
    decode is logged. *)
Theorem X3_unmount_during_decode_builds_nothing (env : Platform) (bytes : ArrayBuffer) :
  response_body env = Some bytes →
  has_AudioContext env || has_webkitAudioContext env = true →
  ∃ w,
    Page_mount_during env (fun w => (Page_unmount w).2) initial = (Normal undefined, w) ∧
    mounted w = false ∧
    audioContextRef w = Some 0 ∧
    context_at w 0 = Some (AudioContext.mk closed 0%Q) ∧
    bufferRef w = None ∧ filtersRef w = [] ∧ biquads w = ∅ ∧
    console w = match decoder env bytes with
                | Some _ => []
                | None => ["Error loading audio:"%string]
                end.
Proof.
  destruct env as [body hA hW st dec]. simpl. intros -> Hctor.
  set (w0 := set_heap {[0 := OContext (AudioContext.mk closed 0%Q)]}
               (set_audioContextRef (Some 0) (set_mounted false initial))).
  destruct (dec bytes) as [buf|] eqn:Hdec.
  - exists w0. split; [|by vm_compute].
    destruct hA, hW; try discriminate Hctor;
      destruct st; run_mount_during; rewrite Hdec; vm_compute; reflexivity.
  - exists (add_console "Error loading audio:" w0). split; [|by vm_compute].
    destruct hA, hW; try discriminate Hctor;
      destruct st; run_mount_during; rewrite Hdec; vm_compute; reflexivity.
Qed.

Lemma X3_unmount_during_decode_builds_nothing_witness :
  ∃ w,
    Page_mount_during good_platform (fun w => (Page_unmount w).2) initial =
      (Normal undefined, w) ∧
    mounted w = false ∧
    audioContextRef w = Some 0 ∧
    context_at w 0 = Some (AudioContext.mk closed 0%Q) ∧
    bufferRef w = None ∧ filtersRef w = [] ∧ biquads w = ∅ ∧
    console w = [].
Proof.
  apply (X3_unmount_during_decode_builds_nothing good_platform
           [Byte.x49; Byte.x44; Byte.x33]); reflexivity.
Defined.

(** ** The switch and the chart *)

Lemma target_gains_retargeted (on : bool) (now : number) (w : World) (h' : gmap nat Obj) :
  chain_built w →
  (∀ k r, filtersRef w !! k = Some r →
     ∃ n g, biquads w !! r = Some n ∧ gains on !! k = Some g ∧
            h' !! r = Some (OBiquad (retargeted g now n))) →
  target_gains (set_heap h' w) = Some <$> gains on.
Proof.
  intros Hb Hin. apply list_eq. intros i.
  rewrite target_gains_lookup, list_lookup_fmap. simpl_world.
  destruct (filtersRef w !! i) as [r|] eqn:Hr.
  - destruct (Hin i r Hr) as (n & g & _ & Hg & Hh').
    rewrite Hg. cbn [fmap option_fmap option_map].
    assert (biquads (set_heap h' w) !! r = Some (retargeted g now n)) as ->
      by by apply biquads_lookup.
    cbn [fmap option_fmap option_map]. by rewrite target_of_retargeted.
  - apply lookup_ge_None_1 in Hr. rewrite (chain_built_length w Hb) in Hr.
    rewrite (lookup_ge_None_2 (gains on)); [done|]. by destruct on.
Qed.

(** A move of the switch on a built chain leaves the filters heading for
    the gains of the new position. *)
Lemma setEqOn_sync (f : bool → bool) (w : World) :
  chain_built w → f (eqOn w) ≠ eqOn w →
  eqOn (setEqOn f w).2 = f (eqOn w) ∧
  target_gains (setEqOn f w).2 = Some <$> gains (f (eqOn w)).
Proof.
  intros Hb Hne. pose proof Hb as [(ctx & Hctx & [c Hc]) _ _ _].
  destruct (setEqOn_built f w ctx c Hb Hctx Hc Hne) as (h' & -> & Hin & _).
  split; [done|]. simpl_world.
  apply (target_gains_retargeted (f (eqOn w)) (AudioContext.currentTime c)
           (set_eqOn (f (eqOn w)) w)); [by apply chain_built_set_eqOn|done].
Qed.

Lemma gains_plotted (on : bool) : gains on = data (EQGraph on).
Proof. by destruct on. Qed.

(** X9. On a built chain, after any move of the switch the gains the
    six filters head for are exactly the series the chart plots,
    whatever they were heading for before. *)
Theorem X9_switch_move_synchronises_chart_and_filters (w : World) :
  chain_built w →
  eqOn (eq_toggle_onClick w).2 = negb (eqOn w) ∧
  target_gains (eq_toggle_onClick w).2 =
    Some <$> data (Page_graph (eq_toggle_onClick w).2).
Proof.
  intros Hb.
  destruct (setEqOn_sync negb w Hb) as [Hon Ht]; [by destruct (eqOn w)|].
  split; [exact Hon|].
  unfold Page_graph, eq_toggle_onClick. rewrite Hon, Ht. by rewrite gains_plotted.
Qed.

Lemma X9_switch_move_synchronises_chart_and_filters_witness :
  eqOn (eq_toggle_onClick ready).2 = true ∧
  target_gains (eq_toggle_onClick ready).2 =
    Some <$> data (Page_graph (eq_toggle_onClick ready).2).
Proof.
  apply (X9_switch_move_synchronises_chart_and_filters ready).
  exact (loaded_chain_built suspended track).
Defined.

(** X10. On a built chain, moving the switch, then any clicks on the
    play button and any time, then moving it again puts [eqOn] and the
    chart back where they were and leaves the filters heading for the
    gains of that position. *)
Theorem X10_two_switch_moves_return (w : World) (es : list Event) :
  chain_built w → forallb no_toggle es = true →
  eqOn (eq_toggle_onClick (run es (eq_toggle_onClick w).2)).2 = eqOn w ∧
  Page_graph (eq_toggle_onClick (run es (eq_toggle_onClick w).2)).2 = Page_graph w ∧
  target_gains (eq_toggle_onClick (run es (eq_toggle_onClick w).2)).2 =
    Some <$> data (Page_graph w).
Proof.
  intros Hb Hes.
  set (w1 := (eq_toggle_onClick w).2). set (w2 := run es w1).
  assert (chain_built w1) as Hb1 by by apply setEqOn_chain_built.
  assert (chain_built w2) as Hb2 by by apply run_chain_built.
  assert (eqOn w1 = negb (eqOn w)) as Hon1.
  { apply setEqOn_sync; [done|]. by destruct (eqOn w). }
  assert (eqOn w2 = negb (eqOn w)) as Hon2.
  { subst w2. by rewrite (frame_eqOn _ _ (run_frame es w1 Hes)). }
  destruct (setEqOn_sync negb w2 Hb2) as [Hon3 Ht3]; [by destruct (eqOn w2)|].
  rewrite Hon2, Bool.negb_involutive in Hon3, Ht3.
  unfold eq_toggle_onClick.
  split; [exact Hon3|]. split.
  - unfold Page_graph. by rewrite Hon3.
  - rewrite Ht3. unfold Page_graph. by rewrite gains_plotted.
Qed.

Lemma X10_two_switch_moves_return_witness :
  eqOn (eq_toggle_onClick (run [PlayClick false; Elapse 3%Q]
                             (eq_toggle_onClick ready).2)).2 = eqOn ready ∧
  Page_graph (eq_toggle_onClick (run [PlayClick false; Elapse 3%Q]
                                   (eq_toggle_onClick ready).2)).2 = Page_graph ready ∧
  target_gains (eq_toggle_onClick (run [PlayClick false; Elapse 3%Q]
                                     (eq_toggle_onClick ready).2)).2 =
    Some <$> data (Page_graph ready).
Proof.
  apply (X10_two_switch_moves_return ready [PlayClick false; Elapse 3%Q]).
  - exact (loaded_chain_built suspended track).
  - reflexivity.
Defined.

(** X11. In any world a move of the switch leaves the transport alone:
    the session ref, [isPlaying], the buffer, the context ref, the chain
    ref and the [mounted] flag stay, and every source node and every
    context is exactly as it was, so what is sounding goes on sounding. *)
Theorem X11_switch_frames_the_transport (f : bool → bool) (w : World) :
  sourceRef (setEqOn f w).2 = sourceRef w ∧
  isPlaying (setEqOn f w).2 = isPlaying w ∧
  bufferRef (setEqOn f w).2 = bufferRef w ∧
  audioContextRef (setEqOn f w).2 = audioContextRef w ∧
  filtersRef (setEqOn f w).2 = filtersRef w ∧
  mounted (setEqOn f w).2 = mounted w ∧
  (∀ r, source_at (setEqOn f w).2 r = source_at w r) ∧
  (∀ r, context_at (setEqOn f w).2 r = context_at w r).
Proof.
  destruct (setEqOn_others f w) as (h & Hh & Ho). rewrite Hh. simpl_world.
  repeat (split; [done|]).
  split; [intros r; unfold source_at; simpl_world; by apply others_source|].
  intros r; unfold context_at; simpl_world; by apply others_context.
Qed.

(** ** A switch moved while the track is decoding *)

Lemma mount_during_toggle (env : Platform) (bytes : ArrayBuffer) (buf : AudioBuffer) :
  response_body env = Some bytes →
  has_AudioContext env || has_webkitAudioContext env = true →
  decoder env bytes = Some buf →
  Page_mount_during env (run [EqToggle]) initial =
    (Normal undefined, set_eqOn true (loaded (created_state env) buf)).
Proof.
  destruct env as [body hA hW st dec]. simpl. intros -> Hctor Hdec.
  destruct hA, hW; try discriminate Hctor;
    run_mount_during; rewrite Hdec; vm_compute; reflexivity.
Qed.

(** X4. When the switch is moved while the track is still decoding, the
    effect finds no chain and the load afterwards builds the chain flat
    without reading the switch.  From then on, through any clicks on the
    play button and any time, the chart plots the bass-heavy curve while
    every filter is heading for 0 dB; only the next move of the switch
    brings the two together again. *)
Theorem X4_switch_moved_during_decode_is_not_applied (env : Platform)
    (bytes : ArrayBuffer) (buf : AudioBuffer) (es : list Event) :
  response_body env = Some bytes →
  has_AudioContext env || has_webkitAudioContext env = true →
  decoder env bytes = Some buf →
  forallb no_toggle es = true →
  ∃ w,
    Page_mount_during env (run [EqToggle]) initial = (Normal undefined, w) ∧
    chain_built w ∧
    eqOn (run es w) = true ∧
    data (Page_graph (run es w)) = [12; 10; 4; -6; -8; -12]%Q ∧
    target_gains (run es w) = replicate 6 (Some 0%Q) ∧
    target_gains (eq_toggle_onClick (run es w)).2 =
      Some <$> data (Page_graph (eq_toggle_onClick (run es w)).2).
Proof.
  intros Hbody Hctor Hdec Hes.
  set (w := set_eqOn true (loaded (created_state env) buf)).
  assert (chain_built w) as Hb
    by apply chain_built_set_eqOn, loaded_chain_built.
  exists w. split; [by apply (mount_during_toggle env bytes buf)|].
  split; [exact Hb|].
  pose proof (run_frame es w Hes) as Hfr.
  destruct (frame_target_gains _ _ Hfr) as [Ht _].
  assert (eqOn (run es w) = true) as Hon by (by rewrite (frame_eqOn _ _ Hfr)).
  split; [exact Hon|].
  split; [unfold Page_graph; by rewrite Hon|].
  split.
  - rewrite Ht. subst w. vm_compute. reflexivity.
  - assert (chain_built (run es w)) as Hb' by by apply run_chain_built.
    destruct (setEqOn_sync negb (run es w) Hb') as [Hon' Ht'];
      [by destruct (eqOn (run es w))|].
    unfold Page_graph, eq_toggle_onClick. rewrite Hon', Ht'. by rewrite gains_plotted.
Qed.

Lemma X4_switch_moved_during_decode_is_not_applied_witness :
  ∃ w,
    Page_mount_during good_platform (run [EqToggle]) initial = (Normal undefined, w) ∧
    chain_built w ∧
    eqOn (run [PlayClick false; Elapse 5%Q] w) = true ∧
    data (Page_graph (run [PlayClick false; Elapse 5%Q] w)) =
      [12; 10; 4; -6; -8; -12]%Q ∧
    target_gains (run [PlayClick false; Elapse 5%Q] w) = replicate 6 (Some 0%Q) ∧
    target_gains (eq_toggle_onClick (run [PlayClick false; Elapse 5%Q] w)).2 =
      Some <$> data (Page_graph (eq_toggle_onClick (run [PlayClick false; Elapse 5%Q] w)).2).
Proof.
  apply (X4_switch_moved_during_decode_is_not_applied good_platform
           [Byte.x49; Byte.x44; Byte.x33] track [PlayClick false; Elapse 5%Q]);
    reflexivity.
Defined.

(** ** The cleanup, continued *)

Lemma heap_after_close_source (ctx : option Ref) (h : gmap nat Obj) (r : Ref) :
  heap_after_close ctx h !! r ≫= as_source = h !! r ≫= as_source.
Proof.
  unfold heap_after_close. destruct ctx as [c|]; [|done].
  destruct (h !! c) as [[x|?|?]|] eqn:Hc; try done.
  destruct (AudioContext.state x); try done;
    (destruct (decide (c = r)) as [->|Hne];
     [by rewrite lookup_insert_eq, Hc|by rewrite lookup_insert_ne]).
Qed.

Lemma heap_after_close_biquads (ctx : option Ref) (h : gmap nat Obj) :
  omap as_biquad (heap_after_close ctx h) = omap as_biquad h.
Proof.
  unfold heap_after_close. destruct ctx as [c|]; [|done].
  destruct (h !! c) as [[x|?|?]|] eqn:Hc; try done.
  destruct (AudioContext.state x); try done;
    (apply omap_insert_hidden; [done|by rewrite Hc]).
Qed.

Lemma heap_after_close_closed (c : Ref) (h : gmap nat Obj) (x : AudioContext.t) :
  h !! c = Some (OContext x) →
  heap_after_close (Some c) h !! c =
    Some (OContext (AudioContext.mk closed (AudioContext.currentTime x))).
Proof.
  intros Hc. unfold heap_after_close. rewrite Hc.
  destruct x as [st t]. destruct st; simpl; by rewrite ?lookup_insert_eq.
Qed.

Lemma heap_after_close_twice (ctx : option Ref) (h : gmap nat Obj) :
  heap_after_close ctx (heap_after_close ctx h) = heap_after_close ctx h.
Proof.
  destruct ctx as [c|]; [|done].
  destruct (h !! c) as [[x|?|?]|] eqn:Hc.
  - pose proof (heap_after_close_closed c h x Hc) as Hc'.
    set (h' := heap_after_close (Some c) h) in *.
    unfold heap_after_close at 1. by rewrite Hc'.
  - unfold heap_after_close. rewrite Hc. by rewrite Hc.
  - unfold heap_after_close. rewrite Hc. by rewrite Hc.
  - unfold heap_after_close. rewrite Hc. by rewrite Hc.
Qed.

(** The held source as the [stop] of the cleanup leaves it. *)
Lemma heap_after_stop_held (w : World) (s : Ref) (n : AudioBufferSourceNode.t) :
  sourceRef w = Some s → heap_after_stop w !! s = Some (OSource n) →
  AudioBufferSourceNode.started n = true → AudioBufferSourceNode.stopped n = true.
Proof.
  intros Hs. unfold heap_after_stop. rewrite Hs.
  destruct (heap w !! s) as [[?|?|n0]|] eqn:Hh; try congruence.
  destruct (AudioBufferSourceNode.started n0) eqn:Hst.
  - rewrite lookup_insert_eq. by intros [= <-].
  - rewrite Hh. intros [= <-]. congruence.
Qed.

Lemma heap_after_stop_fixed (w : World) (h : gmap nat Obj) :
  (∀ s n, sourceRef w = Some s → h !! s = Some (OSource n) →
          AudioBufferSourceNode.started n = true →
          AudioBufferSourceNode.stopped n = true) →
  heap_after_stop (set_heap h w) = h.
Proof.
  intros Hheld. unfold heap_after_stop. simpl_world.
  destruct (sourceRef w) as [s|]; [|done].
  destruct (h !! s) as [[?|?|n]|] eqn:Hh; try done.
  destruct (AudioBufferSourceNode.started n) eqn:Hst; [|done].
  apply insert_id. rewrite Hh. do 2 f_equal.
  specialize (Hheld s n eq_refl Hh Hst). destruct n; simpl in *. by subst.
Qed.

(** X5. In any world where the context ref, if set, holds a context, the
    cleanup completes without throwing, whether or not a load ever
    completed and whether or not anything plays.  It clears [mounted],
    closes the held context, leaves the held source silent, and touches
    no ref, no [isPlaying] and no filter.  Running it again changes
    nothing, and a start attempted afterwards creates nothing. *)
Theorem X5_cleanup_is_safe (w : World) :
  ctx_typed w →
  ∃ w',
    Page_unmount w = (Normal undefined, w') ∧
    mounted w' = false ∧
    sourceRef w' = sourceRef w ∧ isPlaying w' = isPlaying w ∧
    audioContextRef w' = audioContextRef w ∧ bufferRef w' = bufferRef w ∧
    filtersRef w' = filtersRef w ∧ biquads w' = biquads w ∧
    (∀ c, audioContextRef w = Some c →
          ∃ x, context_at w' c = Some x ∧ AudioContext.state x = closed) ∧
    (∀ s n, sourceRef w = Some s → source_at w' s = Some n →
            AudioBufferSourceNode.active n = false) ∧
    Page_unmount w' = (Normal undefined, w') ∧
    (togglePlay false w').2 = w'.
Proof.
  intros Hty.
  set (h1 := heap_after_stop w).
  set (h2 := heap_after_close (audioContextRef w) h1).
  exists (set_heap h2 (set_mounted false w)).
  split; [by apply unmount_run|]. simpl_world.
  do 6 (split; [done|]).
  split.
  { unfold biquads. simpl_world. subst h2 h1.
    rewrite heap_after_close_biquads. apply heap_after_stop_biquads. }
  assert (Hclosed : ∀ c, audioContextRef w = Some c →
            h2 !! c = Some (OContext (AudioContext.mk closed
                                        (AudioContext.currentTime
                                           (default (AudioContext.mk closed 0%Q)
                                              (context_at w c)))))).
  { intros c Hc. destruct (proj1 (context_at_Some w c) (Hty c Hc)) as [x Hx].
    subst h2. rewrite Hc.
    rewrite (heap_after_close_closed c h1 x);
      [|subst h1; by apply heap_after_stop_contexts].
    unfold context_at. by rewrite Hx. }
  assert (Hheld : ∀ s n, sourceRef w = Some s → h2 !! s = Some (OSource n) →
            AudioBufferSourceNode.started n = true →
            AudioBufferSourceNode.stopped n = true).
  { intros s n Hs Hn. apply (heap_after_stop_held w s n Hs).
    pose proof (heap_after_close_source (audioContextRef w) h1 s) as Hsrc.
    fold h2 in Hsrc. rewrite Hn in Hsrc. simpl in Hsrc. fold h1.
    destruct (h1 !! s) as [[?|?|?]|]; simpl in Hsrc; congruence. }
  split.
  { intros c Hc. eexists. unfold context_at. simpl_world.
    rewrite (Hclosed c Hc). by split. }
  split.
  { intros s n Hs Hn. unfold source_at in Hn. simpl_world.
    destruct (h2 !! s) as [[?|?|n']|] eqn:Hh; try discriminate Hn.
    injection Hn as ->. unfold AudioBufferSourceNode.active.
    destruct (AudioBufferSourceNode.started n) eqn:Hst; [|done].
    by rewrite (Hheld s n Hs Hh Hst). }
  split.
  { rewrite unmount_run.
    - simpl_world. f_equal.
      rewrite (heap_after_stop_fixed (set_mounted false w) h2) by exact Hheld.
      subst h2. by rewrite heap_after_close_twice.
    - intros c Hc. simpl_world. unfold context_at. simpl_world.
      rewrite (Hclosed c Hc). by eexists. }
  destruct (audioContextRef w) as [c|] eqn:Hc;
    [|by rewrite togglePlay_guard by (left; done)].
  destruct (bufferRef w) as [buf|] eqn:Hb;
    [|by rewrite togglePlay_guard by (right; left; done)].
  destruct (filtersRef w) as [|f0 fs] eqn:Hf;
    [by rewrite togglePlay_guard by (right; right; done)|].
  rewrite (togglePlay_start _ c buf f0 fs) by done.
  unfold resume. simpl_world. by rewrite (Hclosed c eq_refl).
Qed.

Lemma X5_cleanup_is_safe_witness :
  ∃ w',
    Page_unmount playing = (Normal undefined, w') ∧
    mounted w' = false ∧
    sourceRef w' = sourceRef playing ∧ isPlaying w' = isPlaying playing ∧
    audioContextRef w' = audioContextRef playing ∧ bufferRef w' = bufferRef playing ∧
    filtersRef w' = filtersRef playing ∧ biquads w' = biquads playing ∧
    (∀ c, audioContextRef playing = Some c →
          ∃ x, context_at w' c = Some x ∧ AudioContext.state x = closed) ∧
    (∀ s n, sourceRef playing = Some s → source_at w' s = Some n →
            AudioBufferSourceNode.active n = false) ∧
    Page_unmount w' = (Normal undefined, w') ∧
    (togglePlay false w').2 = w'.
Proof.
  apply (X5_cleanup_is_safe playing).
  intros c Hc. vm_compute in Hc. injection Hc as <-. vm_compute. by eexists.
Defined.

(** Every world a mounted page reaches has a typed context ref. *)
Lemma mount_ctx_typed (env : Platform) : ctx_typed (Page_mount env initial).2.
Proof.
  destruct env as [[bytes|] hA hW st dec].
  - destruct (dec bytes) as [buf|] eqn:Hdec.
    + destruct hA, hW; run_mount; try rewrite Hdec; vm_compute;
        intros c [= <-]; by eexists.
    + destruct hA, hW; run_mount; try rewrite Hdec; vm_compute;
        intros c [= <-]; by eexists.
  - vm_compute. intros c [=].
Qed.

Lemma handle_ctx_typed (e : Event) (w : World) :
  ctx_typed w → ctx_typed (handle e w).2.
Proof.
  intros Hty. destruct e as [shown| |dt]; simpl.
  - destruct (togglePlay_frame shown w) as [_ Hc _ _ _ Hctx].
    intros c Hc'. rewrite Hc in Hc'. by apply Hctx, Hty.
  - destruct (setEqOn_others negb w) as (h & Hh & Ho).
    unfold eq_toggle_onClick. rewrite Hh. intros c Hc. simpl_world.
    unfold context_at. simpl_world. rewrite (others_context (heap w) h c Ho).
    by apply Hty.
  - destruct (elapse_frame dt w) as [_ Hc _ _ _ Hctx].
    intros c Hc'. apply (Hctx c), Hty. exact Hc'.
Qed.

Lemma reachable_ctx_typed (env : Platform) (es : list Event) :
  ctx_typed (run es (Page_mount env initial).2).
Proof.
  generalize (mount_ctx_typed env). generalize (Page_mount env initial).2.
  induction es as [|e es IH]; intros w Hw; [done|].
  simpl. apply IH. by apply handle_ctx_typed.
Qed.

(** ** Starts that fail, and starts that overtake the render *)

(** X6. In any world, a [togglePlay] rendered as playing completes
    without throwing, whatever the held source is.  One rendered as not
    playing either completes, or rejects and leaves the world exactly as
    it was, with no source node created and no ref moved; it rejects only
    past the guard, when the context ref does not hold a live context. *)
Theorem X6_start_is_atomic (w : World) :
  (∃ w', togglePlay true w = (Normal undefined, w')) ∧
  ((∃ w', togglePlay false w = (Normal undefined, w')) ∨
   (∃ e c, togglePlay false w = (Throw e, w) ∧
           audioContextRef w = Some c ∧ is_Some (bufferRef w) ∧ filtersRef w ≠ [] ∧
           ¬ (∃ x, context_at w c = Some x ∧ AudioContext.state x ≠ closed))).
Proof.
  destruct (audioContextRef w) as [c|] eqn:Hc;
    [|rewrite !togglePlay_guard by auto; split; [|left]; by eexists].
  destruct (bufferRef w) as [buf|] eqn:Hb;
    [|rewrite !togglePlay_guard by auto; split; [|left]; by eexists].
  destruct (filtersRef w) as [|f0 fs] eqn:Hf;
    [rewrite !togglePlay_guard by auto; split; [|left]; by eexists|].
  split.
  - rewrite (togglePlay_stop w c buf f0 fs) by done. by eexists.
  - rewrite (togglePlay_start w c buf f0 fs) by done.
    destruct (resume_cases c w) as [(x & Hh & Hst & ->)|[e He]].
    + left. by eexists.
    + right. exists e, c. rewrite He. split; [done|]. split; [done|].
      split; [by eexists|]. split; [done|].
      intros (x & Hx & Hst). unfold context_at in Hx. unfold resume in He.
      destruct (heap w !! c) as [[x'|?|?]|]; try discriminate Hx.
      injection Hx as ->. destruct (AudioContext.state x); try discriminate He.
      by apply Hst.
Qed.

Lemma togglePlay_starts_heap (w : World) (ctx : Ref) (c : AudioContext.t)
    (buf : AudioBuffer) (f0 : Ref) (fs : list Ref) :
  audioContextRef w = Some ctx → context_at w ctx = Some c →
  AudioContext.state c ≠ closed →
  bufferRef w = Some buf → filtersRef w = f0 :: fs →
  ∃ s,
    heap w !! s = None ∧
    togglePlay false w =
      (Normal undefined,
       set_isPlaying true (set_sourceRef (Some s)
         (set_heap
            (<[s := OSource (session buf f0)]>
               (<[ctx := OContext (AudioContext.set_state running c)]> (heap w)))
            w))).
Proof.
  intros Hc Hctx Hst Hb Hf.
  rewrite (togglePlay_start w ctx buf f0 fs) by done.
  assert (heap w !! ctx = Some (OContext c)) as Hh.
  { unfold context_at in Hctx.
    destruct (heap w !! ctx) as [[c'|?|?]|]; try discriminate Hctx.
    by injection Hctx as ->. }
  destruct (resume_cases ctx w) as [(c' & Hh' & _ & ->)|[e He]].
  - assert (c' = c) as -> by congruence.
    set (h1 := <[ctx:=OContext (AudioContext.set_state running c)]> (heap w)).
    simpl_world. fold h1.
    assert (h1 !! fresh (dom h1) = None) as Hfr by apply fresh_not_in_heap.
    assert (ctx ≠ fresh (dom h1)) as Hne.
    { intros Heq. rewrite <- Heq in Hfr. subst h1.
      by rewrite lookup_insert_eq in Hfr. }
    exists (fresh (dom h1)). split; [|done].
    subst h1. by rewrite lookup_insert_ne in Hfr.
  - exfalso. unfold resume in He. rewrite Hh in He.
    destruct (AudioContext.state c); try discriminate He. by apply Hst.
Qed.

(** X7. Two starts in a row, the second rendered before the first one's
    [setIsPlaying] reached the screen, leave two sources sounding, and
    only the second is held.  The stop that follows silences the held
    one and clears the ref and [isPlaying]; the first goes on looping
    with nothing left that refers to it. *)
Theorem X7_overtaking_start_orphans_a_source (w : World) (ctx : Ref)
    (c : AudioContext.t) (buf : AudioBuffer) (f0 : Ref) (fs : list Ref) :
  audioContextRef w = Some ctx → context_at w ctx = Some c →
  AudioContext.state c ≠ closed →
  bufferRef w = Some buf → filtersRef w = f0 :: fs →
  ∃ w1 w2 w3 s1 s2,
    togglePlay false w = (Normal undefined, w1) ∧
    togglePlay false w1 = (Normal undefined, w2) ∧
    togglePlay true w2 = (Normal undefined, w3) ∧
    s1 ≠ s2 ∧
    sourceRef w1 = Some s1 ∧ sourceRef w2 = Some s2 ∧
    source_at w2 s1 = Some (session buf f0) ∧
    source_at w2 s2 = Some (session buf f0) ∧
    sourceRef w3 = None ∧ isPlaying w3 = false ∧
    source_at w3 s2 = Some (AudioBufferSourceNode.set_stopped (session buf f0)) ∧
    source_at w3 s1 = Some (session buf f0) ∧
    AudioBufferSourceNode.active (session buf f0) = true.
Proof.
  intros Hc Hctx Hst Hb Hf.
  destruct (togglePlay_starts_heap w ctx c buf f0 fs Hc Hctx Hst Hb Hf)
    as (s1 & Hs1 & Hrun1).
  assert (heap w !! ctx = Some (OContext c)) as Hh.
  { unfold context_at in Hctx.
    destruct (heap w !! ctx) as [[c'|?|?]|]; try discriminate Hctx.
    by injection Hctx as ->. }
  assert (s1 ≠ ctx) as Hne1 by (intros ->; congruence).
  set (h1 := <[s1 := OSource (session buf f0)]>
               (<[ctx := OContext (AudioContext.set_state running c)]> (heap w))).
  set (w1 := set_isPlaying true (set_sourceRef (Some s1) (set_heap h1 w))).
  assert (h1 !! s1 = Some (OSource (session buf f0))) as Hh1s
    by (subst h1; by rewrite lookup_insert_eq).
  assert (h1 !! ctx = Some (OContext (AudioContext.set_state running c))) as Hh1c.
  { subst h1. rewrite lookup_insert_ne by done. by rewrite lookup_insert_eq. }
  destruct (togglePlay_starts_heap w1 ctx (AudioContext.set_state running c) buf f0 fs)
    as (s2 & Hs2 & Hrun2); try done.
  { unfold context_at. subst w1. simpl_world. by rewrite Hh1c. }
  assert (heap w1 = h1) as Hw1 by done. rewrite Hw1 in Hs2, Hrun2.
  assert (s1 ≠ s2) as Hne12 by (intros ->; congruence).
  assert (s2 ≠ ctx) as Hne2 by (intros ->; congruence).
  set (h2 := <[s2 := OSource (session buf f0)]>
               (<[ctx := OContext (AudioContext.set_state running
                                     (AudioContext.set_state running c))]> h1)) in *.
  set (w2 := set_isPlaying true (set_sourceRef (Some s2) (set_heap h2 w1))) in *.
  assert (h2 !! s1 = Some (OSource (session buf f0))) as Hh2s1.
  { subst h2. rewrite !lookup_insert_ne by done. exact Hh1s. }
  assert (h2 !! s2 = Some (OSource (session buf f0))) as Hh2s2
    by (subst h2; by rewrite lookup_insert_eq).
  exists w1, w2, (set_isPlaying false (set_sourceRef None (set_heap (heap_after_stop w2) w2))),
    s1, s2.
  split; [exact Hrun1|]. split; [exact Hrun2|].
  split; [by apply (togglePlay_stop w2 ctx buf f0 fs)|].
  split; [done|]. split; [done|]. split; [done|].
  split; [unfold source_at; subst w2; simpl_world; by rewrite Hh2s1|].
  split; [unfold source_at; subst w2; simpl_world; by rewrite Hh2s2|].
  split; [done|]. split; [done|].
  assert (heap_after_stop w2 =
            <[s2 := OSource (AudioBufferSourceNode.set_stopped (session buf f0))]> h2)
    as Hstop.
  { unfold heap_after_stop. subst w2. simpl_world. by rewrite Hh2s2. }
  split; [unfold source_at; simpl_world; rewrite Hstop; by rewrite lookup_insert_eq|].
  split; [|done].
  unfold source_at. simpl_world. rewrite Hstop.
  rewrite lookup_insert_ne by done. by rewrite Hh2s1.
Qed.

Lemma X7_overtaking_start_orphans_a_source_witness :
  ∃ w1 w2 w3 s1 s2,
    togglePlay false ready = (Normal undefined, w1) ∧
    togglePlay false w1 = (Normal undefined, w2) ∧
    togglePlay true w2 = (Normal undefined, w3) ∧
    s1 ≠ s2 ∧
    sourceRef w1 = Some s1 ∧ sourceRef w2 = Some s2 ∧
    source_at w2 s1 = Some (session track 1) ∧
    source_at w2 s2 = Some (session track 1) ∧
    sourceRef w3 = None ∧ isPlaying w3 = false ∧
    source_at w3 s2 = Some (AudioBufferSourceNode.set_stopped (session track 1)) ∧
    source_at w3 s1 = Some (session track 1) ∧
    AudioBufferSourceNode.active (session track 1) = true.
Proof.
  apply (X7_overtaking_start_orphans_a_source ready 0 (AudioContext.mk suspended 0%Q)
           track 1 [2; 3; 4; 5; 6]);
    [vm_compute; reflexivity|vm_compute; reflexivity|discriminate|
     vm_compute; reflexivity|vm_compute; reflexivity].
Defined.

(** ** One session at a time *)

Lemma mount_no_sources (env : Platform) (r : Ref) :
  source_at (Page_mount env initial).2 r = None.
Proof.
  unfold source_at.
  assert (omap as_source (heap (Page_mount env initial).2) = ∅) as Hs.
  { destruct env as [[bytes|] hA hW st dec].
    - destruct (dec bytes) as [buf|] eqn:Hdec.
      + destruct hA, hW; run_mount; try rewrite Hdec; vm_compute; reflexivity.
      + destruct hA, hW; run_mount; try rewrite Hdec; vm_compute; reflexivity.
    - vm_compute. reflexivity. }
  assert (omap as_source (heap (Page_mount env initial).2) !! r = None) as Hr
    by by rewrite Hs.
  by rewrite lookup_omap in Hr.
Qed.







(** ** What stays of the chain *)

Lemma loaded_kept_chain (st : AudioContextState) (buf : AudioBuffer) :
  kept_chain (loaded st buf).
Proof.
  intros i f Hi.
  destruct (loaded_filter st buf i f Hi) as (r & n & Hr & Hn & Heq).
  exists r, n. split; [exact Hr|]. split; [exact Hn|]. rewrite Heq.
  unfold kept_filter, built_filter. cbn [BiquadFilterNode.type
    BiquadFilterNode.frequency BiquadFilterNode.Q BiquadFilterNode.gain
    BiquadFilterNode.outputs AudioParam.value AudioParam.events].
  do 4 (split; [reflexivity|]). split; [constructor|].
  destruct (loaded_refs st buf) as (Hc & _).
  exists 0. split; [exact Hc|reflexivity].
Qed.

Lemma kept_chain_frame (w w' : World) :
  engine_frame w w' → kept_chain w → kept_chain w'.
Proof.
  intros [_ Hc _ Hf Hb _] Hk i f Hi.
  destruct (Hk i f Hi) as (r & n & Hr & Hn & Hkept).
  exists r, n. rewrite Hf, Hb. split; [done|]. split; [done|].
  unfold kept_filter in *. by rewrite Hc, Hf.
Qed.

Lemma kept_chain_setEqOn (f : bool → bool) (w : World) :
  chain_built w → kept_chain w → kept_chain (setEqOn f w).2.
Proof.
  intros Hb Hk. destruct (decide (f (eqOn w) = eqOn w)) as [He|He].
  - by rewrite setEqOn_same.
  - pose proof Hb as [(ctx & Hctx & [c Hc]) _ _ _].
    destruct (setEqOn_built f w ctx c Hb Hctx Hc He) as (h' & -> & Hin & _).
    intros i fq Hi. destruct (Hk i fq Hi) as (r & n & Hr & Hn & Hkept).
    destruct (Hin i r Hr) as (n0 & g & Hn0 & Hg & Hh').
    assert (n0 = n) as -> by congruence.
    exists r, (retargeted g (AudioContext.currentTime c) n). simpl_world.
    split; [done|]. split; [by apply biquads_lookup|].
    destruct Hkept as (Hty & Hfq & HQ & Hv & Hev & Hout).
    unfold kept_filter. simpl_world.
    split; [done|]. split; [done|]. split; [done|]. split; [done|].
    split; [|done].
    unfold retargeted. cbn [BiquadFilterNode.gain BiquadFilterNode.upd_gain
      AudioParam.events AudioParam.setTargetAtTime].
    apply Forall_app. split; [done|]. constructor; [|constructor].
    by exists (f (eqOn w)), g, (AudioContext.currentTime c).
Qed.

Lemma handle_kept_chain (e : Event) (w : World) :
  chain_built w → kept_chain w → kept_chain (handle e w).2.
Proof.
  intros Hb Hk. destruct e as [shown| |dt]; simpl.
  - apply (kept_chain_frame w); [apply togglePlay_frame|done].
  - by apply kept_chain_setEqOn.
  - apply (kept_chain_frame w); [exact (elapse_frame dt w)|done].
Qed.

Lemma run_kept_chain (es : list Event) (w : World) :
  chain_built w → kept_chain w → kept_chain (run es w).
Proof.
  revert w. induction es as [|e es IH]; intros w Hb Hk; [done|].
  simpl. apply IH; [by apply handle_chain_built|by apply handle_kept_chain].
Qed.

Lemma ramp_in_range (i : nat) (ev : AudioParam.Event) :
  ramp_at i ev →
  ∃ g t, ev = AudioParam.SetTargetAtTime g t 0.12%Q ∧
         (y_min EQGraph_options <= g)%Q ∧ (g <= y_max EQGraph_options)%Q.
Proof.
  intros (on & g & t & -> & Hg). exists g, t. split; [done|].
  destruct on; do 6 (destruct i as [|i]; [injection Hg as <-; by vm_compute|]);
    discriminate Hg.
Qed.

(** X12. After a load that went through, whatever clicks, switch moves
    and time follow, each of the six filters is still the node the load
    built: peaking, at its frequency, Q 1, with its one connection to
    the next filter or, for the last, to the destination, and with its
    gain still assigned 0.  All that has been added are ramps on its
    gain, each an exponential approach with time constant 0.12 to a
    value inside the chart's y range. *)
Theorem X12_chain_is_kept (env : Platform) (bytes : ArrayBuffer) (buf : AudioBuffer)
    (es : list Event) (i : nat) (f : number) :
  response_body env = Some bytes →
  has_AudioContext env || has_webkitAudioContext env = true →
  decoder env bytes = Some buf →
  freqs !! i = Some f →
  ∃ r n ctx,
    filtersRef (run es (Page_mount env initial).2) !! i = Some r ∧
    biquads (run es (Page_mount env initial).2) !! r = Some n ∧
    audioContextRef (run es (Page_mount env initial).2) = Some ctx ∧
    BiquadFilterNode.type n = peaking ∧
    BiquadFilterNode.frequency n = AudioParam.mk f [] ∧
    BiquadFilterNode.Q n = AudioParam.mk 1%Q [] ∧
    AudioParam.value (BiquadFilterNode.gain n) = 0%Q ∧
    BiquadFilterNode.outputs n =
      [match filtersRef (run es (Page_mount env initial).2) !! S i with
       | Some next => ToNode next
       | None => ToDestination ctx
       end] ∧
    Forall (fun ev => ∃ g t, ev = AudioParam.SetTargetAtTime g t 0.12%Q ∧
                             (y_min EQGraph_options <= g)%Q ∧
                             (g <= y_max EQGraph_options)%Q)
           (AudioParam.events (BiquadFilterNode.gain n)).
Proof.
  intros Hbody Hctor Hdec Hi.
  rewrite (mount_success env bytes buf) by done. simpl_world.
  destruct (run_kept_chain es (loaded (created_state env) buf)
              (loaded_chain_built _ _) (loaded_kept_chain _ _) i f Hi)
    as (r & n & Hr & Hn & Hty & Hfq & HQ & Hv & Hev & ctx & Hctx & Hout).
  exists r, n, ctx. do 8 (split; [done|]).
  eapply Forall_impl; [exact Hev|]. intros ev. apply ramp_in_range.
Qed.

Lemma X12_chain_is_kept_witness :
  ∃ r n ctx,
    filtersRef (run [EqToggle; PlayClick false; Elapse 1%Q; EqToggle]
                  (Page_mount good_platform initial).2) !! 3 = Some r ∧
    biquads (run [EqToggle; PlayClick false; Elapse 1%Q; EqToggle]
               (Page_mount good_platform initial).2) !! r = Some n ∧
    audioContextRef (run [EqToggle; PlayClick false; Elapse 1%Q; EqToggle]
                       (Page_mount good_platform initial).2) = Some ctx ∧
    BiquadFilterNode.type n = peaking ∧
    BiquadFilterNode.frequency n = AudioParam.mk 1000%Q [] ∧
    BiquadFilterNode.Q n = AudioParam.mk 1%Q [] ∧
    AudioParam.value (BiquadFilterNode.gain n) = 0%Q ∧
    BiquadFilterNode.outputs n =
      [match filtersRef (run [EqToggle; PlayClick false; Elapse 1%Q; EqToggle]
                           (Page_mount good_platform initial).2) !! 4 with
       | Some next => ToNode next
       | None => ToDestination ctx
       end] ∧
    Forall (fun ev => ∃ g t, ev = AudioParam.SetTargetAtTime g t 0.12%Q ∧
                             (y_min EQGraph_options <= g)%Q ∧
                             (g <= y_max EQGraph_options)%Q)
           (AudioParam.events (BiquadFilterNode.gain n)).
Proof.
  apply (X12_chain_is_kept good_platform [Byte.x49; Byte.x44; Byte.x33] track
           [EqToggle; PlayClick false; Elapse 1%Q; EqToggle] 3 1000%Q);
    reflexivity.
Defined.

(** ** The signal path *)

Lemma source_at_Some (w : World) (r : Ref) (n : AudioBufferSourceNode.t) :
  source_at w r = Some n ↔ heap w !! r = Some (OSource n).
Proof.
  unfold source_at. destruct (heap w !! r) as [[?|?|?]|]; simpl; split; congruence.
Qed.

Lemma elapse_source (dt : number) (w : World) (r : Ref) :
  source_at (elapse dt w).2 r = source_at w r.
Proof.
  rewrite elapse_run. unfold source_at. simpl_world.
  rewrite lookup_fmap. destruct (heap w !! r) as [[c|?|?]|]; simpl; try done.
  by destruct (AudioContext.state c).
Qed.

Lemma handle_sources_wired (e : Event) (w : World) :
  sources_wired w → sources_wired (handle e w).2.
Proof.
  intros Hw. destruct e as [shown| |dt]; simpl.
  - destruct (audioContextRef w) as [ctx|] eqn:Hc;
      [|by rewrite togglePlay_guard by auto].
    destruct (bufferRef w) as [buf|] eqn:Hb;
      [|by rewrite togglePlay_guard by auto].
    destruct (filtersRef w) as [|f0 fs] eqn:Hf;
      [by rewrite togglePlay_guard by auto|].
    destruct shown.
    + rewrite (togglePlay_stop w ctx buf f0 fs) by done.
      intros r n Hn. simpl_world. rewrite Hf. exists f0. split; [done|].
      apply source_at_Some in Hn. simpl_world. unfold heap_after_stop in Hn.
      assert (Hold : ∀ m, heap w !! r = Some (OSource m) →
                AudioBufferSourceNode.outputs m = [ToNode f0]).
      { intros m Hm. destruct (Hw r m) as (f0' & Hf0' & Hout);
          [by apply source_at_Some|]. rewrite Hf in Hf0'. by injection Hf0' as <-. }
      destruct (sourceRef w) as [s|]; [|by apply Hold].
      destruct (heap w !! s) as [[?|?|n0]|] eqn:Hs; try by apply Hold.
      destruct (AudioBufferSourceNode.started n0); [|by apply Hold].
      destruct (decide (s = r)) as [->|Hne].
      * rewrite lookup_insert_eq in Hn. injection Hn as <-. simpl. by apply Hold.
      * rewrite lookup_insert_ne in Hn by done. by apply Hold.
    + destruct (resume_cases ctx w) as [(c & Hh & Hst & _)|[e He]].
      * destruct (togglePlay_starts_heap w ctx c buf f0 fs) as (s & Hs & ->);
          try done.
        { unfold context_at. by rewrite Hh. }
        intros r n Hn. simpl_world. rewrite Hf. exists f0. split; [done|].
        apply source_at_Some in Hn. simpl_world.
        destruct (decide (s = r)) as [->|Hne].
        -- rewrite lookup_insert_eq in Hn. by injection Hn as <-.
        -- rewrite lookup_insert_ne in Hn by done.
           destruct (decide (ctx = r)) as [->|Hne'].
           ++ rewrite lookup_insert_eq in Hn. discriminate Hn.
           ++ rewrite lookup_insert_ne in Hn by done.
              destruct (Hw r n) as (f0' & Hf0' & Hout); [by apply source_at_Some|].
              rewrite Hf in Hf0'. by injection Hf0' as <-.
      * rewrite (togglePlay_start w ctx buf f0 fs) by done. by rewrite He.
  - destruct (setEqOn_others negb w) as (h & Hh & Ho).
    unfold eq_toggle_onClick. rewrite Hh. intros r n Hn. simpl_world.
    apply (Hw r n). unfold source_at in *. simpl_world.
    by rewrite <- (others_source (heap w) h r Ho).
  - intros r n Hn. apply (Hw r n). rewrite <- (elapse_source dt w r). exact Hn.
Qed.

Lemma run_sources_wired (es : list Event) (w : World) :
  sources_wired w → sources_wired (run es w).
Proof.
  revert w. induction es as [|e es IH]; intros w Hw; [done|].
  simpl. apply IH. by apply handle_sources_wired.
Qed.

(** On a kept chain the connections lead from the first filter through
    all six, in the order of the chain, to the destination. *)
Lemma route_kept_chain (w : World) (f0 : Ref) :
  chain_built w → kept_chain w → filtersRef w !! 0 = Some f0 →
  route 6 w (ToNode f0) = (filtersRef w, audioContextRef w).
Proof.
  intros Hb Hk Hf0. pose proof (chain_built_length w Hb) as Hlen.
  destruct (Hk 0 60%Q eq_refl) as (r0 & n0 & Hr0 & Hn0 & _ & _ & _ & _ & _ & c0 & Hc0 & Ho0).
  destruct (Hk 1 150%Q eq_refl) as (r1 & n1 & Hr1 & Hn1 & _ & _ & _ & _ & _ & c1 & Hc1 & Ho1).
  destruct (Hk 2 250%Q eq_refl) as (r2 & n2 & Hr2 & Hn2 & _ & _ & _ & _ & _ & c2 & Hc2 & Ho2).
  destruct (Hk 3 1000%Q eq_refl) as (r3 & n3 & Hr3 & Hn3 & _ & _ & _ & _ & _ & c3 & Hc3 & Ho3).
  destruct (Hk 4 4000%Q eq_refl) as (r4 & n4 & Hr4 & Hn4 & _ & _ & _ & _ & _ & c4 & Hc4 & Ho4).
  destruct (Hk 5 15000%Q eq_refl) as (r5 & n5 & Hr5 & Hn5 & _ & _ & _ & _ & _ & c5 & Hc5 & Ho5).
  destruct (filtersRef w) as [|a0 [|a1 [|a2 [|a3 [|a4 [|a5 [|a6 l]]]]]]];
    try discriminate Hlen.
  cbn [lookup list_lookup] in *.
  injection Hr0 as <-. injection Hr1 as <-. injection Hr2 as <-.
  injection Hr3 as <-. injection Hr4 as <-. injection Hr5 as <-.
  injection Hf0 as <-.
  cbn [route]. rewrite Hn0, Ho0.
  cbn [route]. rewrite Hn1, Ho1.
  cbn [route]. rewrite Hn2, Ho2.
  cbn [route]. rewrite Hn3, Ho3.
  cbn [route]. rewrite Hn4, Ho4.
  cbn [route]. rewrite Hn5, Ho5.
  cbn [route]. by rewrite Hc5.
Qed.

(** X13. After a load that went through, whatever clicks (overtaking
    ones included), switch moves and time follow, every source node that
    exists has exactly one connection, into the first filter, and from
    there the connections lead through all six filters in the order of
    the chain, each once, to the context's destination.  Nothing that
    sounds gets round the equalizer. *)
Theorem X13_every_source_runs_through_the_chain (env : Platform) (bytes : ArrayBuffer)
    (buf : AudioBuffer) (es : list Event) (r : Ref) (n : AudioBufferSourceNode.t) :
  response_body env = Some bytes →
  has_AudioContext env || has_webkitAudioContext env = true →
  decoder env bytes = Some buf →
  source_at (run es (Page_mount env initial).2) r = Some n →
  ∃ f0 ctx,
    AudioBufferSourceNode.outputs n = [ToNode f0] ∧
    route 6 (run es (Page_mount env initial).2) (ToNode f0) =
      (filtersRef (run es (Page_mount env initial).2), Some ctx) ∧
    audioContextRef (run es (Page_mount env initial).2) = Some ctx ∧
    length (filtersRef (run es (Page_mount env initial).2)) = 6 ∧
    NoDup (filtersRef (run es (Page_mount env initial).2)).
Proof.
  intros Hbody Hctor Hdec Hn.
  assert (sources_wired (run es (Page_mount env initial).2)) as Hw.
  { apply run_sources_wired. intros r' n' Hn'.
    by rewrite mount_no_sources in Hn'. }
  revert Hn Hw. rewrite (mount_success env bytes buf) by done. simpl_world.
  set (w := run es (loaded (created_state env) buf)). intros Hn Hw.
  assert (chain_built w) as Hb by apply run_chain_built, loaded_chain_built.
  assert (kept_chain w) as Hk
    by (apply run_kept_chain; [apply loaded_chain_built|apply loaded_kept_chain]).
  destruct (Hw r n Hn) as (f0 & Hf0 & Hout).
  pose proof Hb as [(ctx & Hctx & _) _ Hnd _].
  exists f0, ctx. split; [done|].
  split; [rewrite (route_kept_chain w f0 Hb Hk Hf0); by rewrite Hctx|].
  split; [done|]. split; [by apply chain_built_length|done].
Qed.

Lemma X13_every_source_runs_through_the_chain_witness :
  ∃ f0 ctx,
    AudioBufferSourceNode.outputs (session track 1) = [ToNode f0] ∧
    route 6 (run [PlayClick false; EqToggle] (Page_mount good_platform initial).2)
      (ToNode f0) =
      (filtersRef (run [PlayClick false; EqToggle] (Page_mount good_platform initial).2),
       Some ctx) ∧
    audioContextRef (run [PlayClick false; EqToggle]
                       (Page_mount good_platform initial).2) = Some ctx ∧
    length (filtersRef (run [PlayClick false; EqToggle]
                          (Page_mount good_platform initial).2)) = 6 ∧
    NoDup (filtersRef (run [PlayClick false; EqToggle]
                         (Page_mount good_platform initial).2)).
Proof.
  apply (X13_every_source_runs_through_the_chain good_platform
           [Byte.x49; Byte.x44; Byte.x33] track [PlayClick false; EqToggle] 7
           (session track 1));
    reflexivity.
Defined.
